(* ===== verification/_CoqProject ===== *)
-Q . S2P
Prelude.v
Entities.v
Store.v
CategoryRouter.v
TaskRouter.v
App.v
Routing.v
