(* ===== verification/Prelude.v ===== *)
(** * A verification development of the TODO task/category HTTP API

    ** The program

    [src/todo_app/routers/category.py] and [src/todo_app/routers/task.py]
    are the two routers of a FastAPI application.  Each route handler
    obtains an SQLAlchemy [AsyncSession] ([get_async_session]), where
    declared the authenticated user ([Depends(current_active_user)]) and
    the decoded form ([CategoryCreate.as_form], ...), builds one
    statement (insert/update/delete ... returning, or a select with
    joins, a filter on the owner and [order_by(desc(Task.creation_date))]),
    executes it, commits when it changed something and returns the rows.
    The models, the payloads, the session provider and the
    authentication are imported from modules that are not part of the
    reviewed sources.

    ** The files and what they model

    - [Prelude] (this file): the notation scope [todo_scope], the hint
      databases [todo] and [todo_rw], the tactic [decide_by_eval],
      generic lemmas on lists used as tables ([update_where], filters
      by a unique key, splitting a table around a row, joins on a
      unique key) and ORDER BY DESC as stdpp's merge sort
      ([order_by_desc]) with its specification [ordered_desc] (a
      permutation, sorted descending); the theorems rely only on that
      specification, never on the order the sort gives to ties, which
      SQL leaves unspecified.
    - [Entities]: the rows ([Category.t], [Theme.t], [Task.t]) and
      payloads ([CategoryCreate.t], ...) as records with decidable
      equality; modelled from the specification (not under [src/]).
    - [Store]: the database [db] (four tables in insertion order, two id
      sequences), its constraints [integrity] (primary keys, unique
      slugs, the four foreign keys), the invariant [wf] (constraints and
      sequences ahead of every id), the [Table] interface (a class with
      its laws) against which [select_where], [insert_returning],
      [update_returning] and [delete_where] are written once, and the
      session monad [M] (state and exceptions over committed and
      pending states) with [execute], [scalars], [commit] and
      [run_request].  Modelled from the specification.
    - [CategoryRouter] (Module [CategoryRouter]): the five handlers of
      [category.py], one definition each, named as in the source
      ([add_new_category], [get_all_categories], [get_category],
      [update_category], [delete_category]).
    - [TaskRouter] (Module [TaskRouter]): the seven handlers of
      [task.py], the inner joins of the two listings and their abstract
      specification [listing_spec].
    - [App] (Module [App]): the endpoints, [serve] (dependency
      resolution, 401, handler in a fresh session, validation of the
      return value against [response_model], 500 on an uncaught
      exception or a failed validation) and [serve_all], a sequence of
      requests.
    - [Routing] (Module [Routing]): the route tables from the prefixes
      and decorators of both routers in declaration order, Starlette's
      matching of a method and path ([dispatch]: [str] path parameters
      bind one non-empty segment, first full match, else 405, else a
      trailing-slash redirect, else 404) and [handle_http], routing
      followed by [serve].

    ** What the theorems show

    - Handlers, on every branch over a well-formed store: creation
      succeeds exactly when the slug is fresh and the references exist,
      and otherwise raises [IntegrityError] with nothing committed;
      lookups by slug find the unique row or [None]; update and delete
      of a missing slug change nothing; update and delete of a present
      slug act on that row alone, or raise (a collision, an unknown
      reference, a theme still referencing a deleted category); create
      then get returns the created row.
    - Listings refine their specification: exactly the caller's tasks
      of the category or theme, each once despite the joins, newest
      first; unique when no two share a creation date.
    - The application: listings answer 401 without a caller; the slug
      endpoints check no caller, so anyone reads, rewrites and deletes
      another user's rows; every answer has the shape its route
      promises ([response_fits]: 401 only where the user dependency is
      declared, 500 only where a constraint can fail or the
      [response_model] rejects a missing row, never from deleting a
      task); a lookup by a missing slug answers 500 where the
      specification promises null; a category can be deleted by some
      sequence of requests exactly when no theme references it (no
      endpoint removes a theme).
    - Routing: the request built for any endpoint reaches exactly that
      endpoint (no route shadows another); every slug an endpoint
      receives is a non-empty segment without ['/'], so a row created
      with such a slug can never be addressed again; an anonymous HTTP
      DELETE deletes any user's task.

    ** Assumptions and what is not modelled

    Foreign keys are declared without ON DELETE (restrict); ids come
    from per-table sequences advanced only by committed inserts (a
    PostgreSQL sequence also advances on a failed insert, which no
    theorem here depends on); an inactive user, a 403 of the
    authentication library, is folded into the request without a
    caller (401);
    constraints are checked on each statement's result; the display
    fields of the specification are one [title] column.  There is no
    fuel anywhere: every definition is structurally recursive or a
    finite evaluation.  Not modelled: the authentication library (its
    result is the request's [caller]), form decoding (a request carries
    a decoded payload, or [None] for a 422), connection management and
    startup (pure I/O), and concurrent sessions (the specification
    delegates isolation to the store; requests are served one at a
    time). *)

From stdpp Require Export base list strings sorting sets.
From Stdlib Require Export ZArith.

Declare Scope todo_scope.
Delimit Scope todo_scope with todo.
Open Scope Z_scope.

Create HintDb todo discriminated.
Create Rewrite HintDb todo_rw.

(** Closes a decidable proposition on closed data by evaluating its
    decision procedure. *)
Ltac decide_by_eval := refine (bool_decide_unpack _ _); vm_compute; exact I.

(** ** Tables as lists of rows *)

Section Rows.
Context {A : Type}.

(** [UPDATE ... WHERE P SET f]: every row satisfying [P] is replaced by
    its image under [f], in place; the others stay as they are. *)
Definition update_where (P : A -> Prop) `{!forall x, Decision (P x)}
    (f : A -> A) (l : list A) : list A :=
  (fun x => if decide (P x) then f x else x) <$> l.

Context (P : A -> Prop) `{!forall x, Decision (P x)}.

Lemma update_where_none f (l : list A) :
  (forall x, x ∈ l -> ~ P x) -> update_where P f l = l.
Proof.
  induction l as [|y l IH]; intros Hn; [done|].
  cbn. rewrite decide_False by (apply Hn; left).
  f_equal. apply IH. intros x Hx. apply Hn. by right.
Qed.

Lemma filter_none (l : list A) :
  (forall x, x ∈ l -> ~ P x) -> filter P l = [].
Proof.
  induction l as [|y l IH]; intros Hn; [done|].
  rewrite filter_cons_False by (apply Hn; left).
  apply IH. intros x Hx. apply Hn. by right.
Qed.

Lemma filter_all (l : list A) :
  (forall x, x ∈ l -> P x) -> filter P l = l.
Proof.
  induction l as [|y l IH]; intros Ha; [done|].
  rewrite filter_cons_True by (apply Ha; left).
  f_equal. apply IH. intros x Hx. apply Ha. by right.
Qed.

Lemma elem_of_update_where f (l : list A) y :
  y ∈ update_where P f l <->
  exists x, x ∈ l /\ y = (if decide (P x) then f x else x).
Proof.
  unfold update_where. rewrite list_elem_of_fmap. naive_solver.
Qed.

Lemma length_update_where f (l : list A) : length (update_where P f l) = length l.
Proof. apply length_fmap. Qed.
End Rows.

(** ** Rows with a unique key *)

Section UniqueKey.
Context {A K : Type} `{!EqDecision K} (key : A -> K).

Lemma filter_key_unique (l : list A) x
    `{!forall y, Decision (key y = key x)} :
  NoDup (key <$> l) -> x ∈ l -> filter (fun y => key y = key x) l = [x].
Proof.
  induction l as [|y l IH]; intros Hnd Hx; [by apply not_elem_of_nil in Hx|].
  cbn in Hnd. apply NoDup_cons in Hnd as [Hy Hnd].
  apply elem_of_cons in Hx as [->|Hx].
  - rewrite filter_cons_True by done. f_equal.
    apply filter_none. intros z Hz Hk. apply Hy.
    rewrite <-Hk. by apply list_elem_of_fmap_2.
  - rewrite filter_cons_False; [by apply IH|].
    intros Hk. apply Hy. rewrite Hk. by apply list_elem_of_fmap_2.
Qed.

Lemma filter_key_absent (l : list A) k `{!forall y, Decision (key y = k)} :
  k ∉ key <$> l -> filter (fun y => key y = k) l = [].
Proof.
  intros Hk. apply filter_none. intros x Hx <-.
  apply Hk. by apply list_elem_of_fmap_2.
Qed.

(** Two rows of a table with unique keys that share the key are equal. *)
Lemma key_inj_in (l : list A) x y :
  NoDup (key <$> l) -> x ∈ l -> y ∈ l -> key x = key y -> x = y.
Proof.
  intros Hnd Hx Hy Hk.
  pose proof (filter_key_unique l x Hnd Hx) as E1.
  assert (y ∈ filter (fun z => key z = key x) l) as Hy'
    by (apply list_elem_of_filter; done).
  rewrite E1 in Hy'. by apply list_elem_of_singleton in Hy'.
Qed.

Lemma filter_ext_in (P Q : A -> Prop) `{!forall x, Decision (P x)}
    `{!forall x, Decision (Q x)} (l : list A) :
  (forall x, x ∈ l -> P x <-> Q x) -> filter P l = filter Q l.
Proof.
  induction l as [|y l IH]; intros HPQ; [done|]. rewrite !filter_cons.
  rewrite IH by (intros x Hx; apply HPQ; by right).
  assert (P y <-> Q y) by (apply HPQ; left). do 2 case_decide; naive_solver.
Qed.

(** Updating the rows that share the key of [x] updates [x] alone. *)
Lemma update_where_key_unique `{!EqDecision A} (l : list A) x (f : A -> A)
    `{!forall y, Decision (key y = key x)} :
  NoDup (key <$> l) -> x ∈ l ->
  update_where (fun y => key y = key x) f l =
  (fun y => if decide (y = x) then f x else y) <$> l.
Proof.
  intros Hnd Hx. unfold update_where. apply Forall_fmap_ext, Forall_forall.
  intros y Hy. pose proof (key_inj_in l x y Hnd Hx Hy).
  do 2 case_decide; subst; naive_solver.
Qed.

(** Deleting the rows that share the key of [x] deletes [x] alone. *)
Lemma filter_not_key_unique `{!EqDecision A} (l : list A) x
    `{!forall y, Decision (~ key y = key x)} :
  NoDup (key <$> l) -> x ∈ l ->
  filter (fun y => ~ key y = key x) l = filter (fun y => y <> x) l.
Proof.
  intros Hnd Hx. apply filter_ext_in. intros y Hy.
  pose proof (key_inj_in l x y Hnd Hx Hy). naive_solver.
Qed.
End UniqueKey.

(** ** Facts on lists shared by the components *)

Section ListFacts.
Context {A B : Type}.

Lemma if_decide_iff {C} (P Q : Prop) `{!Decision P, !Decision Q} (a b : C) :
  (P <-> Q) -> (if decide P then a else b) = (if decide Q then a else b).
Proof. intros HPQ. do 2 case_decide; naive_solver. Qed.

Lemma NoDup_fmap_filter (f : A -> B) (P : A -> Prop)
    `{!forall x, Decision (P x)} (l : list A) :
  NoDup (f <$> l) -> NoDup (f <$> filter P l).
Proof.
  induction l as [|x l IH]; [done|]. rewrite filter_cons, fmap_cons, NoDup_cons.
  intros [Hx Hl]. case_decide; [|by apply IH].
  rewrite fmap_cons, NoDup_cons. split; [|by apply IH].
  rewrite list_elem_of_fmap in Hx |- *. intros (y & Hy & Hin).
  apply list_elem_of_filter in Hin. naive_solver.
Qed.

Lemma Forall_filter_2 (Q P : A -> Prop) `{!forall x, Decision (P x)}
    (l : list A) :
  Forall Q l -> Forall Q (filter P l).
Proof.
  rewrite !Forall_forall. intros Hall x Hx.
  apply list_elem_of_filter in Hx. naive_solver.
Qed.

Lemma NoDup_fmap_snoc (f : A -> B) (l : list A) x :
  NoDup (f <$> (l ++ [x])) <-> (f x ∉ f <$> l) /\ NoDup (f <$> l).
Proof.
  rewrite fmap_app. cbn. rewrite NoDup_app, NoDup_cons.
  split.
  - intros (Hl & Hd & _). split; [|done]. intros Hin.
    apply (Hd _ Hin). by left.
  - intros [Hx Hl]. split; [done|]. split; [|split; [set_solver|apply NoDup_nil_2]].
    intros y Hy Hy'. apply list_elem_of_singleton in Hy' as ->. done.
Qed.

Lemma NoDup_fmap_middle (f : A -> B) (l1 l2 : list A) x :
  NoDup (f <$> (l1 ++ x :: l2)) <->
  (f x ∉ f <$> (l1 ++ l2)) /\ NoDup (f <$> (l1 ++ l2)).
Proof.
  rewrite <-Permutation_middle. cbn. by rewrite NoDup_cons.
Qed.

(** A row is the only one with its key: the table splits around it. *)
Lemma key_split (key : A -> B) (l : list A) x :
  NoDup (key <$> l) -> x ∈ l ->
  exists l1 l2, l = l1 ++ x :: l2 /\ key x ∉ key <$> (l1 ++ l2).
Proof.
  intros Hnd Hx. apply list_elem_of_split in Hx as (l1 & l2 & ->).
  exists l1, l2. split; [done|].
  by apply NoDup_fmap_middle in Hnd as [? _].
Qed.

Lemma update_where_middle (P : A -> Prop) `{!forall x, Decision (P x)}
    (f : A -> A) (l1 l2 : list A) x :
  P x -> (forall y, y ∈ l1 ++ l2 -> ~ P y) ->
  update_where P f (l1 ++ x :: l2) = l1 ++ f x :: l2.
Proof.
  intros Hx Hn. unfold update_where. rewrite fmap_app. cbn.
  rewrite decide_True by done.
  change ((fun y => if decide (P y) then f y else y) <$> l1) with
    (update_where P f l1).
  change ((fun y => if decide (P y) then f y else y) <$> l2) with
    (update_where P f l2).
  rewrite !update_where_none; [done| |];
    intros y Hy; apply Hn; set_solver.
Qed.
Lemma elem_of_fmap_middle (f : A -> B) (l1 l2 : list A) x y :
  y ∈ f <$> (l1 ++ x :: l2) <-> y = f x \/ y ∈ f <$> (l1 ++ l2).
Proof. rewrite <-Permutation_middle. cbn. apply elem_of_cons. Qed.

(** A value the sequence has not reached is no row's id. *)
Lemma fresh_not_elem_of (f : A -> nat) (l : list A) n :
  Forall (fun x => f x < n)%nat l -> n ∉ f <$> l.
Proof.
  rewrite Forall_forall, list_elem_of_fmap. intros Hl (x & Hx & Hin).
  specialize (Hl x Hin). lia.
Qed.

Lemma Forall_update_where (Q P : A -> Prop) `{!forall x, Decision (P x)}
    (f : A -> A) (l : list A) :
  Forall Q l -> (forall x, x ∈ l -> P x -> Q x -> Q (f x)) ->
  Forall Q (update_where P f l).
Proof.
  rewrite !Forall_forall. intros Hl Hf y Hy.
  apply elem_of_update_where in Hy as (x & Hx & ->).
  case_decide; auto.
Qed.
End ListFacts.

(** ** Inner joins on a unique key *)

Section Joins.
Context {A B : Type}.

Lemma sublist_fmap_2 (f : A -> B) (l1 l2 : list A) :
  l1 `sublist_of` l2 -> f <$> l1 `sublist_of` f <$> l2.
Proof. induction 1; cbn; by constructor. Qed.

(** Joining on a unique key of [l] matches at most one row of [l]. *)
Lemma length_filter_key_le {K} `{!EqDecision K} (key : B -> K) (l : list B) k
    `{!forall y, Decision (k = key y)} :
  NoDup (key <$> l) -> (length (filter (fun y => k = key y) l) <= 1)%nat.
Proof.
  intros Hnd. destruct (decide (k ∈ key <$> l)) as [Hk|Hk].
  - apply list_elem_of_fmap in Hk as (x & -> & Hx).
    rewrite (filter_ext_in _ (fun y => key y = key x)) by naive_solver.
    by rewrite (filter_key_unique key l x).
  - rewrite filter_none; [cbn; lia|]. intros y Hy ->.
    by apply Hk, list_elem_of_fmap_2.
Qed.

(** An inner join that pairs each row of [l] with at most one row
    keeps the rows of [l] once each, in order. *)
Lemma flat_map_le1_sublist (f : A -> list B) (g : B -> A) (l : list A) :
  (forall x, x ∈ l -> (length (f x) <= 1)%nat /\ forall y, y ∈ f x -> g y = x) ->
  g <$> flat_map f l `sublist_of` l.
Proof.
  induction l as [|x l IH]; intros Hf; [done|]. cbn [flat_map].
  rewrite fmap_app.
  assert (forall z, z ∈ l -> (length (f z) <= 1)%nat /\ forall y, y ∈ f z -> g y = z)
    as Hl by (intros z Hz; apply Hf; by right).
  destruct (Hf x ltac:(left)) as [Hlen Hg].
  destruct (f x) as [|y [|y' ys]] eqn:E; cbn in Hlen |- *; [| |lia].
  - apply sublist_cons, IH, Hl.
  - rewrite (Hg y) by set_solver. apply sublist_skip, IH, Hl.
Qed.

Lemma elem_of_flat_map (f : A -> list B) (l : list A) y :
  y ∈ flat_map f l <-> exists x, x ∈ l /\ y ∈ f x.
Proof.
  rewrite list_elem_of_In, in_flat_map.
  setoid_rewrite list_elem_of_In. done.
Qed.
End Joins.

(** ** [ORDER BY key DESC] *)

Section OrderBy.
Context {A : Type} (key : A -> Z).

(** The relation "[a] may come before [b] in a descending listing". *)
Definition desc_by (a b : A) : Prop := key b <= key a.

#[export] Instance desc_by_dec : RelDecision desc_by.
Proof. intros a b. unfold desc_by. apply _. Defined.

#[export] Instance desc_by_total : Total desc_by.
Proof. intros a b. unfold desc_by. lia. Qed.

#[export] Instance desc_by_trans : Transitive desc_by.
Proof. intros a b c. unfold desc_by. lia. Qed.

(** The store's sort: SQL leaves the order of rows with equal keys
    unspecified; the model fixes one (stdpp's merge sort). *)
Definition order_by_desc (l : list A) : list A := merge_sort desc_by l.

(** What an [ORDER BY key DESC] query promises. *)
Definition ordered_desc (l res : list A) : Prop :=
  res ≡ₚ l /\ Sorted desc_by res.

Lemma order_by_desc_spec (l : list A) : ordered_desc l (order_by_desc l).
Proof.
  split; [apply merge_sort_Permutation | apply Sorted_merge_sort, _].
Qed.

(** Without ties the order is determined by the keys alone. *)
Lemma ordered_desc_unique (l r1 r2 : list A) :
  (forall x y, x ∈ l -> y ∈ l -> key x = key y -> x = y) ->
  ordered_desc l r1 -> ordered_desc l r2 -> r1 = r2.
Proof.
  intros Hk [P1 S1] [P2 S2].
  apply (Sorted_unique_strong desc_by); [|done|done|by rewrite P1, P2].
  intros x y Hx Hy Rxy Ryx. apply Hk.
  - by rewrite <-P1.
  - by rewrite <-P2.
  - unfold desc_by in *. lia.
Qed.

(** Two listings with the same rows, each once, both newest first,
    are equal when no two rows share a key. *)
Lemma sorted_desc_unique (r1 r2 : list A) :
  (forall x y, x ∈ r1 -> y ∈ r1 -> key x = key y -> x = y) ->
  (forall x, x ∈ r1 <-> x ∈ r2) -> NoDup r1 -> NoDup r2 ->
  Sorted desc_by r1 -> Sorted desc_by r2 -> r1 = r2.
Proof.
  intros Hk Hin N1 N2 S1 S2. apply (ordered_desc_unique r1); [done|split; done|].
  split; [|done]. symmetry. by apply NoDup_Permutation.
Qed.

Lemma elem_of_order_by_desc (l : list A) x : x ∈ order_by_desc l <-> x ∈ l.
Proof. unfold order_by_desc. by rewrite merge_sort_Permutation. Qed.
End OrderBy.

#[export] Hint Resolve order_by_desc_spec : todo.
#[export] Hint Rewrite @elem_of_order_by_desc : todo_rw.

