(* ===== verification/Entities.v ===== *)
(** * Entities: the rows of the store and the request payloads

    The ORM models ([todo_app.models.entries]: [Category], [Theme],
    [Task]) and the pydantic payloads ([todo_app.schemas.entries]:
    [CategoryCreate], [CategoryUpdate], [TaskCreate], [TaskUpdate]) are
    imported by the routers but are not part of the reviewed sources;
    they are modelled here from the specification (section 3) and from
    the columns the routers use: [Category.slug], [Category.user_id],
    [Theme.id], [Theme.slug], the relationship [Theme.cat],
    [Task.slug], [Task.user_id], [Task.theme_id], [Task.creation_date].
    The "display fields" of the specification are one [title] column.

    Users are rows of an external table managed by the authentication
    library; only their ids matter here. Timestamps are [Z] (seconds). *)

From S2P Require Import Prelude.

Module Category.
Record t := mk {
  id : nat;
  slug : string;
  title : string;
  user_id : nat;
}.
#[global] Instance eq_dec : EqDecision t.
Proof. solve_decision. Defined.
End Category.

Module Theme.
Record t := mk {
  id : nat;
  slug : string;
  title : string;
  cat_id : nat;   (** foreign key of the relationship [Theme.cat] *)
}.
#[global] Instance eq_dec : EqDecision t.
Proof. solve_decision. Defined.
End Theme.

Module Task.
Record t := mk {
  id : nat;
  slug : string;
  title : string;
  creation_date : Z;
  user_id : nat;
  theme_id : nat;
}.
#[global] Instance eq_dec : EqDecision t.
Proof. solve_decision. Defined.
End Task.

(** The form payloads: every column but the server-assigned [id].
    [values] applied to the keyword expansion of [payload.dict()]
    sets exactly these columns. *)

Module CategoryCreate.
Record t := mk { slug : string; title : string; user_id : nat }.
End CategoryCreate.

Module CategoryUpdate.
Record t := mk { slug : string; title : string; user_id : nat }.
End CategoryUpdate.

Module TaskCreate.
Record t := mk {
  slug : string; title : string; creation_date : Z;
  user_id : nat; theme_id : nat
}.
End TaskCreate.

Module TaskUpdate.
Record t := mk {
  slug : string; title : string; creation_date : Z;
  user_id : nat; theme_id : nat
}.
End TaskUpdate.
