(* ===== verification/Store.v ===== *)
(** * Store: the relational database and the SQLAlchemy session

    The routers talk to the database through an [AsyncSession]
    ([get_async_session]): [session.execute(statement)] runs one
    INSERT/UPDATE/DELETE ... RETURNING statement inside the current
    transaction, [session.scalars(select(...))] runs a query,
    [session.commit()] makes the transaction durable, and closing the
    session at the end of the request rolls back whatever was not
    committed.  None of this code is in the reviewed sources; it is
    modelled from the specification (sections 4.2, 5 and 7):

    - [db] is the store: the four tables in insertion order (the order
      a query without ORDER BY returns) and the two id sequences;
    - [integrity] is the schema's constraints: primary keys, the unique
      slugs and the foreign keys; a statement whose result violates one
      raises [IntegrityError] and changes nothing;
    - [Table] is the interface a table offers to the statements, with
      its laws [TableLaws]; the statements [select_where],
      [insert_returning], [update_returning] and [delete_where] are
      written once against it, as SQLAlchemy's constructs are;
    - [M] is the session monad: state passing over a [session] (the
      committed and the pending state) with exceptions;
      [run_request] opens a session on the durable store, runs a
      handler and keeps only what was committed. *)

From S2P Require Import Prelude.
From S2P Require Import Entities.

(** ** The store *)

Record db := DB {
  users : list nat;               (** ids of the external user table *)
  categories : list Category.t;
  themes : list Theme.t;
  tasks : list Task.t;
  category_seq : nat;             (** next value of the category id sequence *)
  task_seq : nat;                 (** next value of the task id sequence *)
}.

Definition set_categories (d : db) (l : list Category.t) : db :=
  DB (users d) l (themes d) (tasks d) (category_seq d) (task_seq d).
Definition set_themes (d : db) (l : list Theme.t) : db :=
  DB (users d) (categories d) l (tasks d) (category_seq d) (task_seq d).
Definition set_tasks (d : db) (l : list Task.t) : db :=
  DB (users d) (categories d) (themes d) l (category_seq d) (task_seq d).
Definition set_category_seq (d : db) (n : nat) : db :=
  DB (users d) (categories d) (themes d) (tasks d) n (task_seq d).
Definition set_task_seq (d : db) (n : nat) : db :=
  DB (users d) (categories d) (themes d) (tasks d) (category_seq d) n.

(** ** Integrity constraints of the schema *)

Definition categories_ok (d : db) : Prop :=
  NoDup (Category.id <$> categories d) /\
  NoDup (Category.slug <$> categories d) /\
  Forall (fun c => Category.user_id c ∈ users d) (categories d).

Definition themes_ok (d : db) : Prop :=
  NoDup (Theme.id <$> themes d) /\
  NoDup (Theme.slug <$> themes d) /\
  Forall (fun th => Theme.cat_id th ∈ Category.id <$> categories d) (themes d).

Definition tasks_ok (d : db) : Prop :=
  NoDup (Task.id <$> tasks d) /\
  NoDup (Task.slug <$> tasks d) /\
  Forall (fun t => Task.user_id t ∈ users d) (tasks d) /\
  Forall (fun t => Task.theme_id t ∈ Theme.id <$> themes d) (tasks d).

Definition integrity (d : db) : Prop :=
  categories_ok d /\ themes_ok d /\ tasks_ok d.

#[export] Instance integrity_dec d : Decision (integrity d).
Proof. unfold integrity, categories_ok, themes_ok, tasks_ok. apply _. Defined.

(** The sequences are ahead of every id they have handed out. *)
Definition seq_fresh (d : db) : Prop :=
  Forall (fun c => Category.id c < category_seq d)%nat (categories d) /\
  Forall (fun t => Task.id t < task_seq d)%nat (tasks d).

(** The invariant of the durable store. *)
Definition wf (d : db) : Prop := integrity d /\ seq_fresh d.

#[export] Instance wf_dec d : Decision (wf d).
Proof. unfold wf, seq_fresh. apply _. Defined.

(** ** Tables *)

Class Table (R : Type) := {
  rows : db -> list R;
  set_rows : db -> list R -> db;
  row_slug : R -> string;
}.

Class TableLaws (R : Type) `{!Table R} := {
  rows_set_rows d l : rows (set_rows d l) = l;
  set_rows_rows d : set_rows d (rows d) = d;
}.

#[export] Instance category_table : Table Category.t :=
  {| rows := categories; set_rows := set_categories; row_slug := Category.slug |}.
#[export] Instance theme_table : Table Theme.t :=
  {| rows := themes; set_rows := set_themes; row_slug := Theme.slug |}.
#[export] Instance task_table : Table Task.t :=
  {| rows := tasks; set_rows := set_tasks; row_slug := Task.slug |}.

#[export] Instance category_table_laws : TableLaws Category.t.
Proof. split; by intros []. Qed.
#[export] Instance theme_table_laws : TableLaws Theme.t.
Proof. split; by intros []. Qed.
#[export] Instance task_table_laws : TableLaws Task.t.
Proof. split; by intros []. Qed.

(** ** SQL statements, written once for every table *)

Section Statements.
Context {R : Type} `{!Table R}.

(** The condition [R.slug == s] of a WHERE clause. *)
Definition slug_is (s : string) (r : R) : Prop := row_slug r = s.
#[export] Instance slug_is_dec s r : Decision (slug_is s r).
Proof. unfold slug_is. apply _. Defined.

(** [select(R).where(P)] *)
Definition select_where (P : R -> Prop) `{!forall r, Decision (P r)}
    (d : db) : list R :=
  filter P (rows d).

(** [insert(R).values(row).returning(R)] *)
Definition insert_returning (row : R) (d : db) : db * list R :=
  (set_rows d (rows d ++ [row]), [row]).

(** [update(R).where(P).values(...).returning(R)]: [f] sets the
    columns of one row. *)
Definition update_returning (P : R -> Prop) `{!forall r, Decision (P r)}
    (f : R -> R) (d : db) : db * list R :=
  (set_rows d (update_where P f (rows d)), f <$> filter P (rows d)).

(** [delete(R).where(P)] *)
Definition delete_where (P : R -> Prop) `{!forall r, Decision (P r)}
    (d : db) : db * unit :=
  (set_rows d (filter (fun r => ~ P r) (rows d)), tt).
End Statements.

(** The table is named explicitly, as in [select(Category)]. *)
Arguments select_where R {_} P {_} d.
Arguments update_returning R {_} P {_} f d.
Arguments delete_where R {_} P {_} d.

(** ** The session monad *)

Record session := Session { committed : db; pending : db }.

(** [sqlalchemy.exc.IntegrityError], raised by a statement that would
    break a constraint. *)
Inductive exn := IntegrityError.

Inductive outcome (A : Type) := Ok (a : A) | Raise (e : exn).
Arguments Ok {A} a.
Arguments Raise {A} e.

Definition M (A : Type) : Type := session -> outcome A * session.

Definition ret {A} (a : A) : M A := fun s => (Ok a, s).

Definition bind {A B} (m : M A) (k : A -> M B) : M B := fun s =>
  match m s with
  | (Ok a, s') => k a s'
  | (Raise e, s') => (Raise e, s')
  end.

Notation "x <- m ;; k" := (bind m (fun x => k))
  (at level 100, m at next level, right associativity) : todo_scope.
Notation "m ;; k" := (bind m (fun _ => k))
  (at level 100, right associativity) : todo_scope.
Open Scope todo_scope.

(** [await session.execute(statement)]: the statement runs on the
    pending state; it raises when its result breaks a constraint. *)
Definition execute {A} (stmt : db -> db * A) : M A := fun s =>
  let '(d', a) := stmt (pending s) in
  if decide (integrity d') then (Ok a, Session (committed s) d')
  else (Raise IntegrityError, s).

(** [await session.scalars(query)]: a read of the pending state. *)
Definition scalars {A} (q : db -> list A) : M (list A) := fun s =>
  (Ok (q (pending s)), s).

(** [await session.commit()] *)
Definition commit : M unit := fun s =>
  (Ok tt, Session (pending s) (pending s)).

(** One request: a session is opened on the durable store, the handler
    runs, and the session is closed; only what was committed stays. *)
Definition run_request {A} (m : M A) (d : db) : outcome A * db :=
  let '(r, s) := m (Session d d) in (r, committed s).

(** ** Running handlers *)

(** The shape of every mutating handler: execute one statement, commit,
    return a value computed from what the statement returned.  Either
    the statement's result satisfies the constraints and is durable, or
    [IntegrityError] propagates and the store is left as it was. *)
Lemma run_execute_commit {A B} (stmt : db -> db * A) (k : A -> B) d :
  run_request (x <- execute stmt ;; commit ;; ret (k x)) d =
  if decide (integrity (stmt d).1) then (Ok (k (stmt d).2), (stmt d).1)
  else (Raise IntegrityError, d).
Proof.
  unfold run_request, bind, execute, commit, ret. cbn.
  destruct (stmt d) as [d' a]. cbn. by case_decide.
Qed.

(** The shape of every reading handler: one query, no commit. *)
(** What holds of the store before a statement and of the store the
    statement produces holds of the store after the request, committed
    or not. *)
Lemma run_execute_commit_frame {A B} (P : db -> Prop) (stmt : db -> db * A) (k : A -> B) d :
  P d -> P (stmt d).1 -> P (run_request (x <- execute stmt ;; commit ;; ret (k x)) d).2.
Proof. intros H0 H1. rewrite run_execute_commit. by case_decide. Qed.

Lemma run_scalars {A B} (q : db -> list A) (k : list A -> B) d :
  run_request (x <- scalars q ;; ret (k x)) d = (Ok (k (q d)), d).
Proof. reflexivity. Qed.

(** ** Statements keyed by a unique slug *)

Section SlugTables.
Context {R : Type} `{!Table R, !TableLaws R}.

Lemma select_slug_unique d r s :
  NoDup (row_slug <$> rows d) -> r ∈ rows d -> row_slug r = s ->
  select_where R (slug_is s) d = [r].
Proof. intros ?? <-. by apply filter_key_unique. Qed.

Lemma select_slug_absent d s :
  s ∉ row_slug <$> rows d -> select_where R (slug_is s) d = [].
Proof. apply filter_key_absent. Qed.

Lemma update_slug_absent d s f :
  s ∉ row_slug <$> rows d -> update_returning R (slug_is s) f d = (d, []).
Proof.
  intros Hs. unfold update_returning.
  rewrite update_where_none, filter_none, set_rows_rows; [done| |];
    intros r Hr Heq; apply Hs; rewrite <-Heq; by apply list_elem_of_fmap_2.
Qed.

Lemma delete_slug_absent d s :
  s ∉ row_slug <$> rows d -> delete_where R (slug_is s) d = (d, tt).
Proof.
  intros Hs. unfold delete_where.
  rewrite filter_all, set_rows_rows; [done|].
  intros r Hr Heq. apply Hs. rewrite <-Heq. by apply list_elem_of_fmap_2.
Qed.

(** The row with slug [row_slug r] splits the table; the statements
    act on that row alone. *)
Lemma slug_split d r :
  NoDup (row_slug <$> rows d) -> r ∈ rows d ->
  exists l1 l2, rows d = l1 ++ r :: l2 /\
    (forall y, y ∈ l1 ++ l2 -> ~ slug_is (row_slug r) y).
Proof.
  intros Hnd Hr. destruct (key_split row_slug _ r Hnd Hr) as (l1 & l2 & E & Hn).
  exists l1, l2. split; [done|]. intros y Hy Heq. apply Hn.
  rewrite <-Heq. by apply list_elem_of_fmap_2.
Qed.

Lemma update_slug_middle d l1 l2 r f :
  rows d = l1 ++ r :: l2 ->
  (forall y, y ∈ l1 ++ l2 -> ~ slug_is (row_slug r) y) ->
  update_returning R (slug_is (row_slug r)) f d = (set_rows d (l1 ++ f r :: l2), [f r]).
Proof.
  intros E Hn. unfold update_returning. rewrite E.
  rewrite update_where_middle by done.
  rewrite filter_app, filter_cons_True by done.
  rewrite !filter_none by (intros y Hy; apply Hn; set_solver). done.
Qed.

Lemma delete_slug_middle d l1 l2 r :
  rows d = l1 ++ r :: l2 ->
  (forall y, y ∈ l1 ++ l2 -> ~ slug_is (row_slug r) y) ->
  delete_where R (slug_is (row_slug r)) d = (set_rows d (l1 ++ l2), tt).
Proof.
  intros E Hn. unfold delete_where. rewrite E, filter_app.
  rewrite filter_cons_False by (intros []; done).
  rewrite !filter_all by (intros y Hy; apply Hn; set_solver). done.
Qed.
End SlugTables.

(** ** The invariant across handlers *)

(** A committed statement keeps the store well formed as soon as it
    keeps the sequences ahead: the constraints are checked by the
    store itself. *)
Lemma run_execute_commit_wf {A B} (stmt : db -> db * A) (k : A -> B) d r d' :
  wf d -> (seq_fresh d -> seq_fresh (stmt d).1) ->
  run_request (x <- execute stmt ;; commit ;; ret (k x)) d = (r, d') -> wf d'.
Proof.
  intros Hwf Hs. rewrite run_execute_commit.
  case_decide; intros [= _ <-]; [split; [done|apply Hs, Hwf]|done].
Qed.

(** Replacing the category table re-checks its own constraints and
    the foreign key of the themes; the tasks are not concerned. *)
Lemma integrity_set_categories d l :
  integrity d ->
  integrity (set_categories d l) <->
  categories_ok (set_categories d l) /\
  Forall (fun th => Theme.cat_id th ∈ Category.id <$> l) (themes d).
Proof.
  intros (_ & (Ht1 & Ht2 & _) & Hk). unfold integrity, themes_ok. cbn.
  split; [naive_solver|]. intros [Hc Ht3].
  exact (conj Hc (conj (conj Ht1 (conj Ht2 Ht3)) Hk)).
Qed.

(** Nothing references a task: replacing the task table re-checks only
    the task constraints. *)
Lemma integrity_set_tasks d l :
  integrity d -> integrity (set_tasks d l) <-> tasks_ok (set_tasks d l).
Proof.
  intros (Hc & Ht & _). unfold integrity. cbn. naive_solver.
Qed.

(** Reduces the [Table] projections of a concrete table and the
    record accessors of [db] after a setter. *)
Ltac table_simpl :=
  cbn [rows set_rows row_slug category_table theme_table task_table fst snd
       set_categories set_themes set_tasks set_category_seq set_task_seq
       users categories themes tasks category_seq task_seq] in *.

(** A mutating handler that raised committed nothing. *)
Lemma run_execute_commit_raise {A B} (stmt : db -> db * A) (k : A -> B) d e d' :
  run_request (x <- execute stmt ;; commit ;; ret (k x)) d = (Raise e, d') -> d' = d.
Proof. rewrite run_execute_commit. case_decide; congruence. Qed.
