(* ===== verification/CategoryRouter.v ===== *)
(** * CategoryRouter: the handlers of [src/todo_app/routers/category.py]

    Each handler of the router (prefix [/API/category]) is one
    definition in the session monad [M] of [Store], written as the
    Python code is: the statement it builds, [session.execute] or
    [session.scalars], [session.commit] where the code commits, and
    [result.scalars().first()] ([head]) or [result.all()].  The
    authenticated user of [get_all_categories] is passed as its id
    ([user.id]); the handlers addressed by slug take no user at all,
    as in the code.

    The theorems characterise every handler on every branch over a
    well-formed store ([wf]): creation succeeds exactly when the slug
    is fresh and the owner exists, lookups by slug find the unique row
    or nothing, updates and deletes of a missing slug change nothing,
    updates and deletes of a present slug act on that row alone or
    raise [IntegrityError] (a slug collision, an unknown owner, a theme
    still referencing the category), and every handler keeps the store
    well formed. *)

From S2P Require Import Prelude.
From S2P Require Import Entities.
From S2P Require Import Store.

Open Scope todo_scope.

Module CategoryRouter.

(** ** Statements and handlers *)

(** [insert(Category).values( **new_category.dict()).returning(Category)];
    the id comes from the category sequence. *)
Definition insert_category (new_category : CategoryCreate.t) (d : db)
    : db * list Category.t :=
  insert_returning
    (Category.mk (category_seq d) (CategoryCreate.slug new_category)
       (CategoryCreate.title new_category) (CategoryCreate.user_id new_category))
    (set_category_seq d (S (category_seq d))).

(** [@router.post('/create')] *)
Definition add_new_category (new_category : CategoryCreate.t)
    : M (option Category.t) :=
  result <- execute (insert_category new_category) ;;
  commit ;;
  ret (head result).

(** [@router.get('/')]: [Category.user_id == user.id]. *)
Definition get_all_categories (user_id : nat) : M (list Category.t) :=
  result <- scalars (select_where Category.t (fun c => Category.user_id c = user_id)) ;;
  ret result.

(** [@router.get('/{cat_slug}')] *)
Definition get_category (cat_slug : string) : M (option Category.t) :=
  result <- scalars (select_where Category.t (slug_is cat_slug)) ;;
  ret (head result).

(** [.values( **update_category.dict())]: every column but the id. *)
Definition set_category_values (update_category : CategoryUpdate.t)
    (c : Category.t) : Category.t :=
  Category.mk (Category.id c) (CategoryUpdate.slug update_category)
    (CategoryUpdate.title update_category) (CategoryUpdate.user_id update_category).

(** [@router.put('/{cat_slug}/update')] *)
Definition update_category (cat_slug : string) (update_category : CategoryUpdate.t)
    : M (option Category.t) :=
  result <- execute (update_returning Category.t (slug_is cat_slug)
                       (set_category_values update_category)) ;;
  commit ;;
  ret (head result).

(** [@router.delete('/{cat_slug}/delete')]: the body [{'status': 'success'}]. *)
Definition delete_category (cat_slug : string) : M string :=
  execute (delete_where Category.t (slug_is cat_slug)) ;;
  commit ;;
  ret "success"%string.


(** ** What each statement does to the constraints *)

Lemma insert_category_integrity d v :
  wf d ->
  integrity (insert_category v d).1 <->
  (CategoryCreate.slug v ∉ Category.slug <$> categories d) /\
  CategoryCreate.user_id v ∈ users d.
Proof.
  intros [Hi [Hsc _]]. pose proof Hi as ((Hid & Hsl & Hu) & (_ & _ & Hth) & _).
  unfold insert_category, insert_returning. table_simpl.
  rewrite integrity_set_categories by exact Hi.
  unfold categories_ok; table_simpl.
  rewrite !NoDup_fmap_snoc, Forall_app, Forall_singleton.
  cbn [Category.id Category.slug Category.user_id].
  pose proof (fresh_not_elem_of Category.id _ _ Hsc).
  split; [naive_solver|]. intros [Hs Huv]. split; [naive_solver|].
  eapply Forall_impl; [exact Hth|]. intros th Hin. rewrite fmap_app. set_solver.
Qed.

Lemma update_category_integrity d c v :
  wf d -> c ∈ categories d ->
  integrity (update_returning Category.t (slug_is (Category.slug c))
               (set_category_values v) d).1 <->
  CategoryUpdate.user_id v ∈ users d /\
  (CategoryUpdate.slug v = Category.slug c \/
   CategoryUpdate.slug v ∉ Category.slug <$> categories d).
Proof.
  intros [Hi _] Hc. pose proof Hi as ((Hid & Hsl & Hu) & (_ & _ & Hth) & _).
  destruct (slug_split (R:=Category.t) d c) as (l1 & l2 & E & Hn);
    [exact Hsl|exact Hc|].
  pose proof (update_slug_middle (R:=Category.t) d l1 l2 c
                (set_category_values v) E Hn) as Eu.
  table_simpl. rewrite Eu. table_simpl.
  rewrite integrity_set_categories by exact Hi.
  unfold categories_ok; table_simpl.
  rewrite E in Hid, Hsl, Hu, Hth |- *.
  assert (Category.id <$> (l1 ++ set_category_values v c :: l2) =
          Category.id <$> (l1 ++ c :: l2)) as -> by (rewrite !fmap_app; done).
  apply (NoDup_fmap_middle Category.slug) in Hsl as [Hsc Hsl].
  rewrite (NoDup_fmap_middle Category.slug), (elem_of_fmap_middle Category.slug).
  rewrite !Forall_app, !Forall_cons in *.
  cbn [set_category_values Category.slug Category.user_id].
  destruct (decide (CategoryUpdate.slug v = Category.slug c)) as [->|Hne];
    naive_solver.
Qed.

Lemma delete_category_integrity d c :
  wf d -> c ∈ categories d ->
  integrity (delete_where Category.t (slug_is (Category.slug c)) d).1 <->
  Forall (fun th => Theme.cat_id th <> Category.id c) (themes d).
Proof.
  intros [Hi _] Hc. pose proof Hi as ((Hid & Hsl & Hu) & (_ & _ & Hth) & _).
  destruct (slug_split (R:=Category.t) d c) as (l1 & l2 & E & Hn);
    [exact Hsl|exact Hc|].
  pose proof (delete_slug_middle (R:=Category.t) d l1 l2 c E Hn) as Ed.
  table_simpl. rewrite Ed. table_simpl.
  rewrite integrity_set_categories by exact Hi.
  unfold categories_ok; table_simpl.
  rewrite E in Hid, Hsl, Hu, Hth.
  apply (NoDup_fmap_middle Category.id) in Hid as [Hic Hid].
  apply (NoDup_fmap_middle Category.slug) in Hsl as [_ Hsl].
  rewrite Forall_app, Forall_cons in Hu.
  split.
  - intros (_ & Hfk). eapply Forall_impl; [exact Hfk|].
    intros th Hin Heq. apply Hic. by rewrite <-Heq.
  - intros Hne. split; [split; [done|split; [done|rewrite Forall_app; naive_solver]]|].
    rewrite Forall_forall in Hth, Hne |- *. intros th Hin.
    specialize (Hth th Hin). apply elem_of_fmap_middle in Hth as [?|?]; [|done].
    by destruct (Hne th Hin).
Qed.

(** The DELETE of a category no theme references, as the store
    commits it. *)
Lemma run_delete_category d c :
  wf d -> c ∈ categories d ->
  Forall (fun th => Theme.cat_id th <> Category.id c) (themes d) ->
  run_request (delete_category (Category.slug c)) d =
  (Ok "success"%string, set_categories d (filter (fun x => x <> c) (categories d))).
Proof.
  intros Hwf Hc Hth. pose proof Hwf as (((_ & Hsl & _) & _) & _).
  unfold delete_category. rewrite (run_execute_commit _ (fun _ => "success"%string)).
  rewrite decide_True by (by apply delete_category_integrity).
  unfold delete_where, slug_is. table_simpl.
  by rewrite (filter_not_key_unique Category.slug).
Qed.

(** ** The sequences stay ahead *)

Lemma insert_category_seq_fresh d v :
  seq_fresh d -> seq_fresh (insert_category v d).1.
Proof.
  intros [Hc Ht]. unfold insert_category, insert_returning, seq_fresh.
  table_simpl. split; [|exact Ht].
  apply Forall_app. split; [|apply Forall_singleton; cbn; lia].
  eapply Forall_impl; [exact Hc|]. intros c Hlt; cbv beta in *; lia.
Qed.

Lemma update_category_seq_fresh d s v :
  seq_fresh d ->
  seq_fresh (update_returning Category.t (slug_is s) (set_category_values v) d).1.
Proof.
  intros [Hc Ht]. unfold update_returning, seq_fresh. table_simpl.
  split; [|exact Ht]. apply Forall_update_where; [exact Hc|]. by intros [].
Qed.

Lemma delete_category_seq_fresh d s :
  seq_fresh d -> seq_fresh (delete_where Category.t (slug_is s) d).1.
Proof.
  intros [Hc Ht]. unfold delete_where, seq_fresh. table_simpl.
  split; [by apply Forall_filter_2|exact Ht].
Qed.

(** ** Every handler keeps the store well formed *)

Lemma add_new_category_wf d v r d' :
  wf d -> run_request (add_new_category v) d = (r, d') -> wf d'.
Proof. intros Hwf. apply run_execute_commit_wf, insert_category_seq_fresh; done. Qed.

Lemma update_category_wf d s v r d' :
  wf d -> run_request (update_category s v) d = (r, d') -> wf d'.
Proof. intros Hwf. apply run_execute_commit_wf, update_category_seq_fresh; done. Qed.

Lemma delete_category_wf d s r d' :
  wf d -> run_request (delete_category s) d = (r, d') -> wf d'.
Proof. intros Hwf. apply run_execute_commit_wf, delete_category_seq_fresh; done. Qed.

(** ** Functional behaviour of the handlers *)

(** C1: [add_new_category] on a well-formed store succeeds exactly when
    the slug is not taken and the owner is a known user; it then
    appends the row [(category_seq, slug, title, user_id)], advances
    the sequence, commits and returns the row.  Otherwise
    [IntegrityError] propagates and nothing is committed. *)
Theorem add_new_category_spec d v :
  wf d ->
  run_request (add_new_category v) d =
  if decide ((CategoryCreate.slug v ∉ Category.slug <$> categories d) /\
             CategoryCreate.user_id v ∈ users d)
  then (Ok (Some (Category.mk (category_seq d) (CategoryCreate.slug v)
                    (CategoryCreate.title v) (CategoryCreate.user_id v))),
        set_categories (set_category_seq d (S (category_seq d)))
          (categories d ++ [Category.mk (category_seq d) (CategoryCreate.slug v)
                              (CategoryCreate.title v) (CategoryCreate.user_id v)]))
  else (Raise IntegrityError, d).
Proof.
  intros Hwf. unfold add_new_category. rewrite run_execute_commit.
  by rewrite (if_decide_iff _ _ _ _ (insert_category_integrity d v Hwf)).
Qed.

(** C2: a category just created is what [get_category] returns for its
    slug (create, then get by slug, gives the created row back). *)
Theorem create_then_get_category d v c d' :
  wf d -> run_request (add_new_category v) d = (Ok (Some c), d') ->
  run_request (get_category (CategoryCreate.slug v)) d' = (Ok (Some c), d').
Proof.
  intros Hwf. unfold add_new_category. rewrite run_execute_commit.
  case_decide as Hint; [|done]. intros [= <- <-].
  destruct Hint as ((_ & Hsl & _) & _).
  unfold get_category. rewrite run_scalars.
  unfold insert_category, insert_returning in *. table_simpl.
  erewrite (select_slug_unique (R:=Category.t)); [done|exact Hsl|set_solver|done].
Qed.

(** C3: creating a second category with the slug of one just created
    raises [IntegrityError] and leaves the store as the first creation
    left it. *)
Theorem add_new_category_duplicate d v1 v2 c d1 :
  wf d -> run_request (add_new_category v1) d = (Ok (Some c), d1) ->
  CategoryCreate.slug v2 = CategoryCreate.slug v1 ->
  run_request (add_new_category v2) d1 = (Raise IntegrityError, d1).
Proof.
  intros Hwf Hrun Hs. pose proof (add_new_category_wf _ _ _ _ Hwf Hrun) as Hwf1.
  revert Hrun Hwf1. unfold add_new_category at 1. rewrite run_execute_commit.
  case_decide; [|done]. intros [= _ <-] Hwf1.
  unfold add_new_category. rewrite run_execute_commit, decide_False; [done|].
  rewrite insert_category_integrity by done. intros [Hn _]. apply Hn.
  unfold insert_category, insert_returning. table_simpl.
  rewrite Hs, fmap_app. set_solver.
Qed.

(** C4: [get_all_categories] returns the categories owned by the
    caller, every one of them, in store order, and nothing else: for
    [U1 <> U2] the listing of [U1] never holds a row of [U2].  It
    commits nothing. *)
Theorem get_all_categories_owned d u res d' :
  run_request (get_all_categories u) d = (Ok res, d') ->
  d' = d /\ (forall c, c ∈ res <-> c ∈ categories d /\ Category.user_id c = u) /\
  res `sublist_of` categories d.
Proof.
  unfold get_all_categories. rewrite (run_scalars _ id). intros [= <- <-].
  split; [done|]. split; [|apply sublist_filter].
  intros c. unfold select_where. rewrite list_elem_of_filter. table_simpl. naive_solver.
Qed.

(** C5: [get_category] returns the unique category with the slug, or
    [None] when there is none, whoever asks; it commits nothing. *)
Theorem get_category_spec d s :
  wf d ->
  (forall c, c ∈ categories d -> Category.slug c = s ->
     run_request (get_category s) d = (Ok (Some c), d)) /\
  (s ∉ Category.slug <$> categories d ->
     run_request (get_category s) d = (Ok None, d)).
Proof.
  intros (((_ & Hsl & _) & _) & _). unfold get_category. split.
  - intros c Hc Hs. rewrite run_scalars.
    erewrite (select_slug_unique (R:=Category.t)); [done|exact Hsl|done|done].
  - intros Hs. rewrite run_scalars. by rewrite (select_slug_absent (R:=Category.t)).
Qed.

(** C6: updating or deleting a slug no category has changes nothing:
    the update answers [None], the delete answers ["success"]. *)
Theorem update_delete_category_missing d s v :
  wf d -> s ∉ Category.slug <$> categories d ->
  run_request (update_category s v) d = (Ok None, d) /\
  run_request (delete_category s) d = (Ok "success"%string, d).
Proof.
  intros [Hi _] Hs. unfold update_category, delete_category.
  rewrite (run_execute_commit _ head), (run_execute_commit _ (fun _ => "success"%string)).
  rewrite (update_slug_absent (R:=Category.t)), (delete_slug_absent (R:=Category.t)) by done.
  cbn [fst snd head]. by rewrite !decide_True.
Qed.

(** C7: updating the category [c] replaces [c], and [c] alone, by its
    new values, keeping its id, and returns the new row, unless the
    new owner is unknown or the new slug belongs to another category,
    in which case [IntegrityError] propagates and nothing changes. *)
Theorem update_category_existing d c v :
  wf d -> c ∈ categories d ->
  run_request (update_category (Category.slug c) v) d =
  if decide (CategoryUpdate.user_id v ∈ users d /\
             (CategoryUpdate.slug v = Category.slug c \/
              CategoryUpdate.slug v ∉ Category.slug <$> categories d))
  then (Ok (Some (set_category_values v c)),
        set_categories d ((fun x => if decide (x = c) then set_category_values v c else x)
                            <$> categories d))
  else (Raise IntegrityError, d).
Proof.
  intros Hwf Hc. pose proof Hwf as (((_ & Hsl & _) & _) & _).
  unfold update_category. rewrite (run_execute_commit _ head).
  rewrite (if_decide_iff _ _ _ _ (update_category_integrity d c v Hwf Hc)).
  unfold update_returning, slug_is. table_simpl.
  rewrite (filter_key_unique Category.slug), (update_where_key_unique Category.slug)
    by done.
  done.
Qed.

(** C8: deleting the category [c] removes [c] and no other row, unless a
    theme still references [c]: then the foreign key of [Theme.cat]
    makes the DELETE raise [IntegrityError], the handler does not
    answer ["success"] and nothing changes. *)
Theorem delete_category_existing d c :
  wf d -> c ∈ categories d ->
  run_request (delete_category (Category.slug c)) d =
  if decide (Forall (fun th => Theme.cat_id th <> Category.id c) (themes d))
  then (Ok "success"%string, set_categories d (filter (fun x => x <> c) (categories d)))
  else (Raise IntegrityError, d).
Proof.
  intros Hwf Hc. pose proof Hwf as (((_ & Hsl & _) & _) & _).
  unfold delete_category. rewrite (run_execute_commit _ (fun _ => "success"%string)).
  rewrite (if_decide_iff _ _ _ _ (delete_category_integrity d c Hwf Hc)).
  unfold delete_where, slug_is. table_simpl.
  by rewrite (filter_not_key_unique Category.slug).
Qed.

(** ** Witnesses on a concrete store *)

(** Users 1 and 2; the category "work" of user 1 is referenced by the
    theme "proj"; the category "home" belongs to user 2. *)
Definition example_db : db :=
  DB [1%nat; 2%nat]
     [Category.mk 1 "work" "Work" 1; Category.mk 2 "home" "Home" 2]
     [Theme.mk 1 "proj" "Project" 1]
     [] 3 1.

Definition example_create : CategoryCreate.t :=
  CategoryCreate.mk "errands" "Errands" 2.

Definition example_created : Category.t := Category.mk 3 "errands" "Errands" 2.

Definition example_db_created : db :=
  set_categories (set_category_seq example_db 4)
    (categories example_db ++ [example_created]).

Lemma add_new_category_spec_witness :
  wf example_db /\
  run_request (add_new_category example_create) example_db =
  (Ok (Some example_created), example_db_created).
Proof.
  split; [decide_by_eval|].
  rewrite (add_new_category_spec example_db example_create); [|decide_by_eval].
  rewrite decide_True; [reflexivity|decide_by_eval].
Defined.

Lemma create_then_get_category_witness :
  run_request (add_new_category example_create) example_db =
    (Ok (Some example_created), example_db_created) /\
  run_request (get_category "errands") example_db_created =
    (Ok (Some example_created), example_db_created).
Proof.
  split; [reflexivity|].
  apply (create_then_get_category example_db example_create); [decide_by_eval|reflexivity].
Defined.

Lemma add_new_category_duplicate_witness :
  run_request (add_new_category (CategoryCreate.mk "errands" "Other" 1)) example_db_created =
  (Raise IntegrityError, example_db_created).
Proof.
  apply (add_new_category_duplicate example_db example_create _ example_created);
    [decide_by_eval|reflexivity|reflexivity].
Defined.

Lemma get_all_categories_owned_witness :
  run_request (get_all_categories 2) example_db =
    (Ok [Category.mk 2 "home" "Home" 2], example_db) /\
  (forall c, c ∈ [Category.mk 2 "home" "Home" 2] <->
             c ∈ categories example_db /\ Category.user_id c = 2%nat).
Proof.
  split; [reflexivity|].
  apply (get_all_categories_owned example_db 2 _ example_db). reflexivity.
Defined.

Lemma get_category_spec_witness :
  run_request (get_category "home") example_db =
    (Ok (Some (Category.mk 2 "home" "Home" 2)), example_db) /\
  run_request (get_category "none") example_db = (Ok None, example_db).
Proof.
  split.
  - apply (proj1 (get_category_spec example_db "home" ltac:(decide_by_eval)));
      [decide_by_eval|reflexivity].
  - apply (proj2 (get_category_spec example_db "none" ltac:(decide_by_eval))).
    decide_by_eval.
Defined.

Lemma update_delete_category_missing_witness :
  run_request (update_category "none" (CategoryUpdate.mk "x" "X" 1)) example_db =
    (Ok None, example_db) /\
  run_request (delete_category "none") example_db = (Ok "success"%string, example_db).
Proof. apply update_delete_category_missing; decide_by_eval. Defined.

Lemma update_category_existing_witness :
  run_request (update_category "home" (CategoryUpdate.mk "house" "House" 2)) example_db =
    (Ok (Some (Category.mk 2 "house" "House" 2)),
     set_categories example_db
       [Category.mk 1 "work" "Work" 1; Category.mk 2 "house" "House" 2]) /\
  run_request (update_category "home" (CategoryUpdate.mk "work" "Taken" 2)) example_db =
    (Raise IntegrityError, example_db).
Proof.
  split.
  - rewrite (update_category_existing example_db (Category.mk 2 "home" "Home" 2));
      [|decide_by_eval|decide_by_eval].
    rewrite decide_True; [reflexivity|decide_by_eval].
  - rewrite (update_category_existing example_db (Category.mk 2 "home" "Home" 2));
      [|decide_by_eval|decide_by_eval].
    rewrite decide_False; [reflexivity|decide_by_eval].
Defined.

Lemma delete_category_existing_witness :
  run_request (delete_category "work") example_db = (Raise IntegrityError, example_db) /\
  run_request (delete_category "home") example_db =
    (Ok "success"%string,
     set_categories example_db [Category.mk 1 "work" "Work" 1]).
Proof.
  pose proof (delete_category_existing example_db (Category.mk 1 "work" "Work" 1)
                ltac:(decide_by_eval) ltac:(decide_by_eval)) as Ework.
  pose proof (delete_category_existing example_db (Category.mk 2 "home" "Home" 2)
                ltac:(decide_by_eval) ltac:(decide_by_eval)) as Ehome.
  cbn [Category.slug] in Ework, Ehome. rewrite Ework, Ehome.
  rewrite decide_False, decide_True; [split; reflexivity|decide_by_eval|decide_by_eval].
Defined.

End CategoryRouter.
