(* ===== verification/TaskRouter.v ===== *)
(** * TaskRouter: the handlers of [src/todo_app/routers/task.py]

    The router (prefix [/API/task]) has the five handlers of the
    category router, written the same way, and two listings that join
    tables: [get_tasks_by_cat] joins Task to Theme on [Task.theme_id ==
    Theme.id] and Theme to Category through the relationship
    [Theme.cat], [get_tasks_by_theme] joins Task to Theme only.  Every
    listing filters on the caller ([Task.user_id == user.id]) and is
    ordered by [desc(Task.creation_date)] ([order_by_desc]).

    The joins are written as the SQL semantics of an inner join: one
    joined row per matching combination, in the order of the task
    table; [scalars()] keeps the first entity of each row, the task.

    The theorems characterise every handler as for categories, show
    that every listing refines its abstract specification (exactly the
    caller's tasks in the category or theme, each once, newest first)
    and that deleting a task never fails. *)

From S2P Require Import Prelude.
From S2P Require Import Entities.
From S2P Require Import Store.

Open Scope todo_scope.

Module TaskRouter.

(** ** Statements and handlers *)

(** [insert(Task).values( **new_task.dict()).returning(Task)]; the id
    comes from the task sequence. *)
Definition insert_task (new_task : TaskCreate.t) (d : db) : db * list Task.t :=
  insert_returning
    (Task.mk (task_seq d) (TaskCreate.slug new_task) (TaskCreate.title new_task)
       (TaskCreate.creation_date new_task) (TaskCreate.user_id new_task)
       (TaskCreate.theme_id new_task))
    (set_task_seq d (S (task_seq d))).

(** [@router.post('/create')] *)
Definition add_new_task (new_task : TaskCreate.t) : M (option Task.t) :=
  result <- execute (insert_task new_task) ;;
  commit ;;
  ret (head result).

(** [select(Task).where(Task.user_id == user.id).order_by(desc(Task.creation_date))] *)
Definition all_tasks_query (user_id : nat) (d : db) : list Task.t :=
  order_by_desc Task.creation_date
    (select_where Task.t (fun t => Task.user_id t = user_id) d).

(** [@router.get('/')] *)
Definition get_all_tasks (user_id : nat) : M (list Task.t) :=
  result <- scalars (all_tasks_query user_id) ;;
  ret result.

(** [select(Task).join(Theme, Task.theme_id == Theme.id)]: the joined
    rows of the inner join. *)
Definition join_task_theme (d : db) : list (Task.t * Theme.t) :=
  flat_map (fun t =>
    (fun th => (t, th)) <$> filter (fun th => Task.theme_id t = Theme.id th) (themes d))
    (tasks d).

(** [... .join(Theme.cat)]: the relationship joins on
    [Theme.cat_id == Category.id]. *)
Definition join_task_theme_cat (d : db) : list (Task.t * Theme.t * Category.t) :=
  flat_map (fun r =>
    (fun c => (r, c)) <$> filter (fun c => Theme.cat_id r.2 = Category.id c) (categories d))
    (join_task_theme d).

(** The statement of [get_tasks_by_cat]:
    [select(Task).join(Theme, Task.theme_id == Theme.id).join(Theme.cat)
     .where(Category.slug == cat_slug).where(Task.user_id == user.id)
     .order_by(desc(Task.creation_date))], of which [scalars()] keeps
    the task. *)
Definition tasks_by_cat_query (cat_slug : string) (user_id : nat) (d : db)
    : list Task.t :=
  (fun r => r.1.1) <$>
    order_by_desc (fun r => Task.creation_date r.1.1)
      (filter (fun r => Task.user_id r.1.1 = user_id)
         (filter (fun r => Category.slug r.2 = cat_slug)
            (join_task_theme_cat d))).

(** [@router.get('/cat/{cat_slug}')] *)
Definition get_tasks_by_cat (cat_slug : string) (user_id : nat) : M (list Task.t) :=
  result <- scalars (tasks_by_cat_query cat_slug user_id) ;;
  ret result.

(** The statement of [get_tasks_by_theme]:
    [select(Task).join(Theme, Task.theme_id == Theme.id)
     .where(Theme.slug == theme_slug).where(Task.user_id == user.id)
     .order_by(desc(Task.creation_date))]. *)
Definition tasks_by_theme_query (theme_slug : string) (user_id : nat) (d : db)
    : list Task.t :=
  (fun r => r.1) <$>
    order_by_desc (fun r => Task.creation_date r.1)
      (filter (fun r => Task.user_id r.1 = user_id)
         (filter (fun r => Theme.slug r.2 = theme_slug)
            (join_task_theme d))).

(** [@router.get('/theme/{theme_slug}')] *)
Definition get_tasks_by_theme (theme_slug : string) (user_id : nat)
    : M (list Task.t) :=
  result <- scalars (tasks_by_theme_query theme_slug user_id) ;;
  ret result.

(** [@router.get('/{task_slug}')] *)
Definition get_task (task_slug : string) : M (option Task.t) :=
  result <- scalars (select_where Task.t (slug_is task_slug)) ;;
  ret (head result).

(** [.values( **update_task.dict())]: every column but the id. *)
Definition set_task_values (update_task : TaskUpdate.t) (t : Task.t) : Task.t :=
  Task.mk (Task.id t) (TaskUpdate.slug update_task) (TaskUpdate.title update_task)
    (TaskUpdate.creation_date update_task) (TaskUpdate.user_id update_task)
    (TaskUpdate.theme_id update_task).

(** [@router.put('/{task_slug}/update')] *)
Definition update_task (task_slug : string) (update_task : TaskUpdate.t)
    : M (option Task.t) :=
  result <- execute (update_returning Task.t (slug_is task_slug)
                       (set_task_values update_task)) ;;
  commit ;;
  ret (head result).

(** [@router.delete('/{task_slug}/delete')] *)
Definition delete_task (task_slug : string) : M string :=
  execute (delete_where Task.t (slug_is task_slug)) ;;
  commit ;;
  ret "success"%string.

(** ** What each statement does to the constraints *)

Lemma insert_task_integrity d v :
  wf d ->
  integrity (insert_task v d).1 <->
  (TaskCreate.slug v ∉ Task.slug <$> tasks d) /\ TaskCreate.user_id v ∈ users d /\
  TaskCreate.theme_id v ∈ Theme.id <$> themes d.
Proof.
  intros [Hi [_ Hst]]. pose proof Hi as (_ & _ & (Hid & Hsl & Hu & Hth)).
  unfold insert_task, insert_returning. table_simpl.
  rewrite integrity_set_tasks by exact Hi.
  unfold tasks_ok; table_simpl.
  rewrite !NoDup_fmap_snoc, !Forall_app, !Forall_singleton.
  cbn [Task.id Task.slug Task.user_id Task.theme_id].
  pose proof (fresh_not_elem_of Task.id _ _ Hst). naive_solver.
Qed.

Lemma update_task_integrity d t v :
  wf d -> t ∈ tasks d ->
  integrity (update_returning Task.t (slug_is (Task.slug t)) (set_task_values v) d).1 <->
  TaskUpdate.user_id v ∈ users d /\ TaskUpdate.theme_id v ∈ Theme.id <$> themes d /\
  (TaskUpdate.slug v = Task.slug t \/ TaskUpdate.slug v ∉ Task.slug <$> tasks d).
Proof.
  intros [Hi _] Ht. pose proof Hi as (_ & _ & (Hid & Hsl & Hu & Hth)).
  destruct (slug_split (R:=Task.t) d t) as (l1 & l2 & E & Hn); [exact Hsl|exact Ht|].
  pose proof (update_slug_middle (R:=Task.t) d l1 l2 t (set_task_values v) E Hn) as Eu.
  table_simpl. rewrite Eu. table_simpl.
  rewrite integrity_set_tasks by exact Hi.
  unfold tasks_ok; table_simpl.
  rewrite E in Hid, Hsl, Hu, Hth |- *.
  assert (Task.id <$> (l1 ++ set_task_values v t :: l2) = Task.id <$> (l1 ++ t :: l2))
    as -> by (rewrite !fmap_app; done).
  apply (NoDup_fmap_middle Task.slug) in Hsl as [Hsc Hsl].
  rewrite (NoDup_fmap_middle Task.slug), (elem_of_fmap_middle Task.slug).
  rewrite !Forall_app, !Forall_cons in *.
  cbn [set_task_values Task.slug Task.user_id Task.theme_id].
  destruct (decide (TaskUpdate.slug v = Task.slug t)) as [->|Hne]; naive_solver.
Qed.

(** Nothing references a task: a DELETE on tasks never breaks a
    constraint. *)
Lemma delete_task_integrity d s :
  wf d -> integrity (delete_where Task.t (slug_is s) d).1.
Proof.
  intros [Hi _]. pose proof Hi as (_ & _ & (Hid & Hsl & Hu & Hth)).
  unfold delete_where. table_simpl.
  apply integrity_set_tasks; [exact Hi|]. unfold tasks_ok; table_simpl.
  split; [by apply NoDup_fmap_filter|]. split; [by apply NoDup_fmap_filter|].
  split; by apply Forall_filter_2.
Qed.

(** ** The sequences stay ahead *)

Lemma insert_task_seq_fresh d v : seq_fresh d -> seq_fresh (insert_task v d).1.
Proof.
  intros [Hc Ht]. unfold insert_task, insert_returning, seq_fresh.
  table_simpl. split; [exact Hc|].
  apply Forall_app. split; [|apply Forall_singleton; cbn; lia].
  eapply Forall_impl; [exact Ht|]. intros t Hlt; cbv beta in *; lia.
Qed.

Lemma update_task_seq_fresh d s v :
  seq_fresh d ->
  seq_fresh (update_returning Task.t (slug_is s) (set_task_values v) d).1.
Proof.
  intros [Hc Ht]. unfold update_returning, seq_fresh. table_simpl.
  split; [exact Hc|]. apply Forall_update_where; [exact Ht|]. by intros [].
Qed.

Lemma delete_task_seq_fresh d s :
  seq_fresh d -> seq_fresh (delete_where Task.t (slug_is s) d).1.
Proof.
  intros [Hc Ht]. unfold delete_where, seq_fresh. table_simpl.
  split; [exact Hc|by apply Forall_filter_2].
Qed.

(** ** Every handler keeps the store well formed *)

Lemma add_new_task_wf d v r d' :
  wf d -> run_request (add_new_task v) d = (r, d') -> wf d'.
Proof. intros Hwf. apply run_execute_commit_wf, insert_task_seq_fresh; done. Qed.

Lemma update_task_wf d s v r d' :
  wf d -> run_request (update_task s v) d = (r, d') -> wf d'.
Proof. intros Hwf. apply run_execute_commit_wf, update_task_seq_fresh; done. Qed.

Lemma delete_task_wf d s r d' :
  wf d -> run_request (delete_task s) d = (r, d') -> wf d'.
Proof. intros Hwf. apply run_execute_commit_wf, delete_task_seq_fresh; done. Qed.

(** ** The joins *)

Lemma elem_of_join_task_theme d r :
  r ∈ join_task_theme d <->
  r.1 ∈ tasks d /\ r.2 ∈ themes d /\ Task.theme_id r.1 = Theme.id r.2.
Proof.
  unfold join_task_theme. rewrite elem_of_flat_map. split.
  - intros (t & Ht & Hr). apply list_elem_of_fmap in Hr as (th & -> & Hth).
    apply list_elem_of_filter in Hth. naive_solver.
  - destruct r as [t th]. intros (Ht & Hth & Heq). exists t. split; [done|].
    apply list_elem_of_fmap. exists th. split; [done|].
    by apply list_elem_of_filter.
Qed.

Lemma elem_of_join_task_theme_cat d r :
  r ∈ join_task_theme_cat d <->
  r.1 ∈ join_task_theme d /\ r.2 ∈ categories d /\ Theme.cat_id r.1.2 = Category.id r.2.
Proof.
  unfold join_task_theme_cat. rewrite elem_of_flat_map. split.
  - intros (r' & Hr' & Hr). apply list_elem_of_fmap in Hr as (c & -> & Hc).
    apply list_elem_of_filter in Hc. destruct r'. naive_solver.
  - destruct r as [[t th] c]. intros (Hr & Hc & Heq). exists (t, th). split; [done|].
    apply list_elem_of_fmap. exists c. split; [done|].
    by apply list_elem_of_filter.
Qed.

(** With unique theme and category ids, each task takes part in at
    most one joined row. *)
Lemma join_task_theme_sublist d :
  wf d -> fst <$> join_task_theme d `sublist_of` tasks d.
Proof.
  intros ((_ & (Hthid & _) & _) & _). apply flat_map_le1_sublist.
  intros t _. rewrite length_fmap. split.
  - by apply (length_filter_key_le Theme.id).
  - intros r Hr. apply list_elem_of_fmap in Hr as (th & -> & _). done.
Qed.

Lemma join_task_theme_cat_sublist d :
  wf d -> (fun r => r.1.1) <$> join_task_theme_cat d `sublist_of` tasks d.
Proof.
  intros Hwf. pose proof Hwf as (((Hcid & _) & _) & _).
  etrans; [|apply (join_task_theme_sublist d Hwf)].
  change ((fun r => r.1.1) <$> join_task_theme_cat d) with
    ((fst ∘ fst) <$> join_task_theme_cat d).
  rewrite list_fmap_compose. apply sublist_fmap_2, flat_map_le1_sublist.
  intros r _. rewrite length_fmap. split.
  - by apply (length_filter_key_le Category.id).
  - intros r' Hr'. apply list_elem_of_fmap in Hr' as (c & -> & _). by destruct r.
Qed.

(** ** The abstract specification of the listings *)

(** What a listing of tasks promises: the tasks of the store that
    satisfy [P], every one of them, each once, newest first (rows with
    the same [creation_date] in any order). *)
Definition listing_spec (P : Task.t -> Prop) (d : db) (res : list Task.t) : Prop :=
  (forall t, t ∈ res <-> t ∈ tasks d /\ P t) /\ NoDup res /\
  Sorted (desc_by Task.creation_date) res.

(** The task's theme has the slug [theme_slug]. *)
Definition in_theme (d : db) (theme_slug : string) (t : Task.t) : Prop :=
  exists th, th ∈ themes d /\ Task.theme_id t = Theme.id th /\
             Theme.slug th = theme_slug.

(** The category of the task's theme has the slug [cat_slug]. *)
Definition in_category (d : db) (cat_slug : string) (t : Task.t) : Prop :=
  exists th c, th ∈ themes d /\ c ∈ categories d /\
    Task.theme_id t = Theme.id th /\ Theme.cat_id th = Category.id c /\
    Category.slug c = cat_slug.

Lemma NoDup_tasks d : wf d -> NoDup (tasks d).
Proof. intros ((_ & _ & (Hid & _)) & _). by apply NoDup_fmap_1 in Hid. Qed.

(** A query that selects rows, keeps each task at most once, sorts by
    the task's date and projects the task meets [listing_spec]. *)
Lemma listing_of_rows {X} (proj : X -> Task.t) (rows : list X) (P : Task.t -> Prop) d :
  wf d -> proj <$> rows `sublist_of` tasks d ->
  (forall t, (exists r, r ∈ rows /\ proj r = t) <-> t ∈ tasks d /\ P t) ->
  listing_spec P d (proj <$> order_by_desc (fun r => Task.creation_date (proj r)) rows).
Proof.
  intros Hwf Hsub Hin. split; [|split].
  - intros t. rewrite list_elem_of_fmap, <-Hin.
    setoid_rewrite elem_of_order_by_desc. naive_solver.
  - unfold order_by_desc. rewrite merge_sort_Permutation.
    eapply sublist_NoDup; [apply NoDup_tasks, Hwf|exact Hsub].
  - eapply Sorted_fmap; [|apply order_by_desc_spec]. by intros x y.
Qed.

(** No two of the listed tasks share a creation date. *)
Definition no_ties (l : list Task.t) : Prop :=
  forall t1 t2, t1 ∈ l -> t2 ∈ l ->
    Task.creation_date t1 = Task.creation_date t2 -> t1 = t2.

Lemma listing_spec_unique P d r1 r2 :
  listing_spec P d r1 -> listing_spec P d r2 -> no_ties r1 -> r1 = r2.
Proof.
  intros (H1 & N1 & S1) (H2 & N2 & S2) Hk.
  apply (sorted_desc_unique Task.creation_date); try done.
  intros t. by rewrite H1, H2.
Qed.

Lemma all_tasks_query_spec d u :
  wf d -> listing_spec (fun t => Task.user_id t = u) d (all_tasks_query u d).
Proof.
  intros Hwf. unfold all_tasks_query.
  rewrite <-(list_fmap_id (order_by_desc _ _)).
  apply (listing_of_rows id); [done| |].
  - rewrite list_fmap_id. apply sublist_filter.
  - intros t. unfold select_where. setoid_rewrite list_elem_of_filter.
    table_simpl. unfold id. naive_solver.
Qed.

Lemma tasks_by_cat_query_spec d s u :
  wf d ->
  listing_spec (fun t => Task.user_id t = u /\ in_category d s t) d
    (tasks_by_cat_query s u d).
Proof.
  intros Hwf. apply listing_of_rows; [done| |].
  - etrans; [|apply (join_task_theme_cat_sublist d Hwf)].
    apply sublist_fmap_2. etrans; apply sublist_filter.
  - intros t. do 2 setoid_rewrite list_elem_of_filter.
    setoid_rewrite elem_of_join_task_theme_cat.
    setoid_rewrite elem_of_join_task_theme. split.
    + intros (r & (Hu & Hs & (Ht & Hth & Hid) & Hc & Hcat) & <-).
      split; [done|]. split; [done|]. by exists r.1.2, r.2.
    + intros (Ht & Hu & th & c & Hth & Hc & E1 & E2 & E3).
      exists (t, th, c). naive_solver.
Qed.

Lemma tasks_by_theme_query_spec d s u :
  wf d ->
  listing_spec (fun t => Task.user_id t = u /\ in_theme d s t) d
    (tasks_by_theme_query s u d).
Proof.
  intros Hwf. apply listing_of_rows; [done| |].
  - etrans; [|apply (join_task_theme_sublist d Hwf)].
    apply sublist_fmap_2. etrans; apply sublist_filter.
  - intros t. do 2 setoid_rewrite list_elem_of_filter.
    setoid_rewrite elem_of_join_task_theme. split.
    + intros (r & (Hu & Hs & Ht & Hth & Hid) & <-).
      split; [done|]. split; [done|]. by exists r.2.
    + intros (Ht & Hu & th & Hth & E1 & E2). exists (t, th). naive_solver.
Qed.

(** ** Functional behaviour of the handlers *)

(** C9: [add_new_task] succeeds exactly when the slug is not taken, the
    owner is a known user and the theme exists; it then appends the
    row with the next id of the task sequence and returns it.
    Otherwise [IntegrityError] propagates and nothing is committed. *)
Theorem add_new_task_spec d v :
  wf d ->
  run_request (add_new_task v) d =
  if decide ((TaskCreate.slug v ∉ Task.slug <$> tasks d) /\
             TaskCreate.user_id v ∈ users d /\
             TaskCreate.theme_id v ∈ Theme.id <$> themes d)
  then (Ok (Some (Task.mk (task_seq d) (TaskCreate.slug v) (TaskCreate.title v)
                    (TaskCreate.creation_date v) (TaskCreate.user_id v)
                    (TaskCreate.theme_id v))),
        set_tasks (set_task_seq d (S (task_seq d)))
          (tasks d ++ [Task.mk (task_seq d) (TaskCreate.slug v) (TaskCreate.title v)
                         (TaskCreate.creation_date v) (TaskCreate.user_id v)
                         (TaskCreate.theme_id v)]))
  else (Raise IntegrityError, d).
Proof.
  intros Hwf. unfold add_new_task. rewrite run_execute_commit.
  by rewrite (if_decide_iff _ _ _ _ (insert_task_integrity d v Hwf)).
Qed.

(** C10: a task just created is what [get_task] returns for its slug. *)
Theorem create_then_get_task d v t d' :
  wf d -> run_request (add_new_task v) d = (Ok (Some t), d') ->
  run_request (get_task (TaskCreate.slug v)) d' = (Ok (Some t), d').
Proof.
  intros Hwf. unfold add_new_task. rewrite run_execute_commit.
  case_decide as Hint; [|done]. intros [= <- <-].
  destruct Hint as (_ & _ & (_ & Hsl & _)).
  unfold get_task. rewrite run_scalars.
  unfold insert_task, insert_returning in *. table_simpl.
  erewrite (select_slug_unique (R:=Task.t)); [done|exact Hsl|set_solver|done].
Qed.

(** C11: [get_all_tasks] returns the caller's tasks, every one of them,
    each once, newest first, and commits nothing; when no two of them
    share a creation date this is the only list that meets the
    specification [listing_spec]. *)
Theorem get_all_tasks_spec d u :
  wf d ->
  exists res, run_request (get_all_tasks u) d = (Ok res, d) /\
    listing_spec (fun t => Task.user_id t = u) d res /\
    (no_ties res -> forall res',
       listing_spec (fun t => Task.user_id t = u) d res' -> res' = res).
Proof.
  intros Hwf. pose proof (all_tasks_query_spec d u Hwf) as Hspec.
  eexists. split; [apply (run_scalars _ id)|]. split; [done|].
  intros Hk res' Hres'. symmetry.
  eapply listing_spec_unique; [exact Hspec|exact Hres'|exact Hk].
Qed.

(** C12: [get_tasks_by_cat] returns the caller's tasks whose theme
    belongs to the category with the slug, every one of them, each
    once, newest first, and commits nothing; without ties in the dates
    it is the only list that meets the specification. *)
Theorem get_tasks_by_cat_spec d s u :
  wf d ->
  exists res, run_request (get_tasks_by_cat s u) d = (Ok res, d) /\
    listing_spec (fun t => Task.user_id t = u /\ in_category d s t) d res /\
    (no_ties res -> forall res',
       listing_spec (fun t => Task.user_id t = u /\ in_category d s t) d res' ->
       res' = res).
Proof.
  intros Hwf. pose proof (tasks_by_cat_query_spec d s u Hwf) as Hspec.
  eexists. split; [apply (run_scalars _ id)|]. split; [done|].
  intros Hk res' Hres'. symmetry.
  eapply listing_spec_unique; [exact Hspec|exact Hres'|exact Hk].
Qed.

(** C13: [get_tasks_by_theme] returns the caller's tasks of the theme
    with the slug, every one of them, each once, newest first, and
    commits nothing; without ties it is the only such list. *)
Theorem get_tasks_by_theme_spec d s u :
  wf d ->
  exists res, run_request (get_tasks_by_theme s u) d = (Ok res, d) /\
    listing_spec (fun t => Task.user_id t = u /\ in_theme d s t) d res /\
    (no_ties res -> forall res',
       listing_spec (fun t => Task.user_id t = u /\ in_theme d s t) d res' ->
       res' = res).
Proof.
  intros Hwf. pose proof (tasks_by_theme_query_spec d s u Hwf) as Hspec.
  eexists. split; [apply (run_scalars _ id)|]. split; [done|].
  intros Hk res' Hres'. symmetry.
  eapply listing_spec_unique; [exact Hspec|exact Hres'|exact Hk].
Qed.

(** C14: updating or deleting a slug no task has changes nothing. *)
Theorem update_delete_task_missing d s v :
  wf d -> s ∉ Task.slug <$> tasks d ->
  run_request (update_task s v) d = (Ok None, d) /\
  run_request (delete_task s) d = (Ok "success"%string, d).
Proof.
  intros [Hi _] Hs. unfold update_task, delete_task.
  rewrite (run_execute_commit _ head), (run_execute_commit _ (fun _ => "success"%string)).
  rewrite (update_slug_absent (R:=Task.t)), (delete_slug_absent (R:=Task.t)) by done.
  cbn [fst snd head]. by rewrite !decide_True.
Qed.

(** C15: updating the task [t] replaces [t] alone by its new values,
    keeping its id, and returns the new row, unless the new owner is
    unknown, the new theme does not exist or the new slug belongs to
    another task; then [IntegrityError] propagates and nothing
    changes.  The owner can be changed by anyone: the handler checks
    no caller. *)
Theorem update_task_existing d t v :
  wf d -> t ∈ tasks d ->
  run_request (update_task (Task.slug t) v) d =
  if decide (TaskUpdate.user_id v ∈ users d /\ TaskUpdate.theme_id v ∈ Theme.id <$> themes d /\
             (TaskUpdate.slug v = Task.slug t \/ TaskUpdate.slug v ∉ Task.slug <$> tasks d))
  then (Ok (Some (set_task_values v t)),
        set_tasks d ((fun x => if decide (x = t) then set_task_values v t else x)
                       <$> tasks d))
  else (Raise IntegrityError, d).
Proof.
  intros Hwf Ht. pose proof Hwf as ((_ & _ & (_ & Hsl & _)) & _).
  unfold update_task. rewrite (run_execute_commit _ head).
  rewrite (if_decide_iff _ _ _ _ (update_task_integrity d t v Hwf Ht)).
  unfold update_returning, slug_is. table_simpl.
  by rewrite (filter_key_unique Task.slug), (update_where_key_unique Task.slug).
Qed.

(** C16: deleting a task always answers ["success"] and commits:
    the task with the slug, and no other row, is removed; nothing
    references a task, so the DELETE never raises. *)
Theorem delete_task_spec d s :
  wf d ->
  run_request (delete_task s) d =
  (Ok "success"%string, set_tasks d (filter (fun x => Task.slug x <> s) (tasks d))).
Proof.
  intros Hwf. unfold delete_task. rewrite (run_execute_commit _ (fun _ => "success"%string)).
  rewrite decide_True by (apply delete_task_integrity, Hwf). done.
Qed.


(** ** Witnesses on a concrete store *)

Definition t1 : Task.t := Task.mk 1 "t1" "First" 100 1 1.
Definition t2 : Task.t := Task.mk 2 "t2" "Second" 200 1 2.
Definition t3 : Task.t := Task.mk 3 "t3" "Other" 150 2 1.

(** Users 1 and 2, one category "work" with the themes "proj" and
    "misc"; [t1] and [t2] belong to user 1, [t3] to user 2. *)
Definition example_db : db :=
  DB [1%nat; 2%nat]
     [Category.mk 1 "work" "Work" 1]
     [Theme.mk 1 "proj" "Project" 1; Theme.mk 2 "misc" "Misc" 1]
     [t1; t2; t3] 2 4.

Definition example_create : TaskCreate.t := TaskCreate.mk "t4" "Fourth" 300 2 2.
Definition example_created : Task.t := Task.mk 4 "t4" "Fourth" 300 2 2.
Definition example_db_created : db :=
  set_tasks (set_task_seq example_db 5) [t1; t2; t3; example_created].

Lemma add_new_task_spec_witness :
  wf example_db /\
  run_request (add_new_task example_create) example_db =
  (Ok (Some example_created), example_db_created).
Proof.
  split; [decide_by_eval|].
  rewrite (add_new_task_spec example_db example_create); [|decide_by_eval].
  rewrite decide_True; [reflexivity|decide_by_eval].
Defined.

Lemma create_then_get_task_witness :
  run_request (get_task "t4") example_db_created =
  (Ok (Some example_created), example_db_created).
Proof.
  apply (create_then_get_task example_db example_create); [decide_by_eval|reflexivity].
Defined.

Lemma get_all_tasks_spec_witness :
  run_request (get_all_tasks 1) example_db = (Ok [t2; t1], example_db) /\
  listing_spec (fun t => Task.user_id t = 1%nat) example_db [t2; t1].
Proof.
  destruct (get_all_tasks_spec example_db 1) as (res & Hrun & Hspec & _); [decide_by_eval|].
  assert (Hc : run_request (get_all_tasks 1) example_db = (Ok [t2; t1], example_db))
    by reflexivity.
  rewrite Hc in Hrun. injection Hrun as <-. split; [exact Hc|exact Hspec].
Defined.

Lemma get_tasks_by_cat_spec_witness :
  run_request (get_tasks_by_cat "work" 1) example_db = (Ok [t2; t1], example_db) /\
  listing_spec (fun t => Task.user_id t = 1%nat /\ in_category example_db "work" t)
    example_db [t2; t1].
Proof.
  destruct (get_tasks_by_cat_spec example_db "work" 1) as (res & Hrun & Hspec & _);
    [decide_by_eval|].
  assert (Hc : run_request (get_tasks_by_cat "work" 1) example_db = (Ok [t2; t1], example_db))
    by reflexivity.
  rewrite Hc in Hrun. injection Hrun as <-. split; [exact Hc|exact Hspec].
Defined.

Lemma get_tasks_by_theme_spec_witness :
  run_request (get_tasks_by_theme "proj" 1) example_db = (Ok [t1], example_db) /\
  listing_spec (fun t => Task.user_id t = 1%nat /\ in_theme example_db "proj" t)
    example_db [t1].
Proof.
  destruct (get_tasks_by_theme_spec example_db "proj" 1) as (res & Hrun & Hspec & _);
    [decide_by_eval|].
  assert (Hc : run_request (get_tasks_by_theme "proj" 1) example_db = (Ok [t1], example_db))
    by reflexivity.
  rewrite Hc in Hrun. injection Hrun as <-. split; [exact Hc|exact Hspec].
Defined.

Lemma update_delete_task_missing_witness :
  run_request (update_task "none" (TaskUpdate.mk "x" "X" 0 1 1)) example_db =
    (Ok None, example_db) /\
  run_request (delete_task "none") example_db = (Ok "success"%string, example_db).
Proof. apply update_delete_task_missing; decide_by_eval. Defined.

Lemma update_task_existing_witness :
  run_request (update_task "t1" (TaskUpdate.mk "t1" "Moved" 100 2 2)) example_db =
    (Ok (Some (Task.mk 1 "t1" "Moved" 100 2 2)),
     set_tasks example_db [Task.mk 1 "t1" "Moved" 100 2 2; t2; t3]) /\
  run_request (update_task "t1" (TaskUpdate.mk "t1" "Lost" 100 1 9)) example_db =
    (Raise IntegrityError, example_db).
Proof.
  pose proof (update_task_existing example_db t1 (TaskUpdate.mk "t1" "Moved" 100 2 2)
                ltac:(decide_by_eval) ltac:(decide_by_eval)) as Emoved.
  pose proof (update_task_existing example_db t1 (TaskUpdate.mk "t1" "Lost" 100 1 9)
                ltac:(decide_by_eval) ltac:(decide_by_eval)) as Elost.
  cbn [Task.slug t1] in Emoved, Elost. rewrite Emoved, Elost.
  rewrite decide_True, decide_False; [split; reflexivity|decide_by_eval|decide_by_eval].
Defined.

Lemma delete_task_spec_witness :
  run_request (delete_task "t3") example_db =
  (Ok "success"%string, set_tasks example_db [t1; t2]).
Proof. rewrite delete_task_spec; [reflexivity|decide_by_eval]. Defined.

End TaskRouter.
