(* ===== verification/App.v ===== *)
(** * App: requests, responses and sequences of requests

    The application serves one request at a time against the store
    (section 5 of the specification: each handler issues one statement
    and commits it, so requests are atomic and serialise at the store).
    A [request] names the endpoint the router selected (with its path
    parameter and decoded form) and the caller resolved by
    [Depends(current_active_user)], [None] when the request carries no
    valid credentials.  [serve] resolves the dependency of the handlers
    that declare it (answering 401 without running the handler when
    there is no caller), runs the handler in a fresh session and turns
    its outcome into the response body, an uncaught [IntegrityError]
    becoming a 500.

    The routes declared with [response_model] ([get_category],
    [get_task]) validate their return value: a missing row ([None])
    becomes a 500 ([respond_model]).  [serve_all] serves a sequence of
    requests in order.

    The theorems: the listings demand a caller; the endpoints addressed
    by slug check no caller at all, so anyone reads, changes and
    deletes another user's task (the "TODO: only for user" of the
    source); every response has the shape its route promises
    ([response_fits]); a category can be removed by some sequence of
    requests exactly when no theme references it; and a lookup by a
    missing slug answers 500, not the null of the specification. *)

From S2P Require Import Prelude.
From S2P Require Import Entities.
From S2P Require Import Store.
From S2P Require Import CategoryRouter.
From S2P Require Import TaskRouter.

Open Scope todo_scope.

Module App.
Import CategoryRouter TaskRouter.

(** ** Endpoints, requests and responses *)

Inductive endpoint :=
| AddNewCategory (new_category : CategoryCreate.t)
| GetAllCategories
| GetCategory (cat_slug : string)
| UpdateCategory (cat_slug : string) (update_category : CategoryUpdate.t)
| DeleteCategory (cat_slug : string)
| AddNewTask (new_task : TaskCreate.t)
| GetAllTasks
| GetTasksByCat (cat_slug : string)
| GetTasksByTheme (theme_slug : string)
| GetTask (task_slug : string)
| UpdateTask (task_slug : string) (update_task : TaskUpdate.t)
| DeleteTask (task_slug : string).

Record request := Request {
  caller : option nat;      (** [current_active_user], when it resolves *)
  target : endpoint;
}.

Inductive response :=
| CategoryBody (c : option Category.t)
| CategoriesBody (l : list Category.t)
| TaskBody (t : option Task.t)
| TasksBody (l : list Task.t)
| StatusBody (status : string)   (** [{'status': status}] *)
| Unauthorized                   (** 401 from [current_active_user] *)
| InternalServerError.           (** an exception the handler did not catch *)

(** The outcome of a handler as the body FastAPI sends. *)
Definition respond {A} (body : A -> response) (r : outcome A * db) : response * db :=
  match r with
  | (Ok a, d) => (body a, d)
  | (Raise _, d) => (InternalServerError, d)
  end.

(** A route declared with [response_model=CategoryRead] or
    [response_model=TaskRead] has its return value validated against the
    model before it is sent: a row passes, while [None] (no row matched,
    [result.first()]) is not a [CategoryRead] and the validation error
    becomes a 500, as does an exception of the handler. *)
Definition respond_model {A} (body : A -> response) (r : outcome (option A) * db)
    : response * db :=
  match r with
  | (Ok (Some a), d) => (body a, d)
  | (Ok None, d) | (Raise _, d) => (InternalServerError, d)
  end.

(** [user=Depends(current_active_user)]: resolved before the handler. *)
Definition with_user (caller : option nat) (h : nat -> db -> response * db) (d : db)
    : response * db :=
  match caller with
  | Some u => h u d
  | None => (Unauthorized, d)
  end.

Definition serve (r : request) (d : db) : response * db :=
  match target r with
  | AddNewCategory f => respond CategoryBody (run_request (add_new_category f) d)
  | GetAllCategories =>
      with_user (caller r)
        (fun u => respond CategoriesBody ∘ run_request (get_all_categories u)) d
  | GetCategory s =>
      respond_model (fun c => CategoryBody (Some c)) (run_request (get_category s) d)
  | UpdateCategory s f => respond CategoryBody (run_request (update_category s f) d)
  | DeleteCategory s => respond StatusBody (run_request (delete_category s) d)
  | AddNewTask f => respond TaskBody (run_request (add_new_task f) d)
  | GetAllTasks =>
      with_user (caller r) (fun u => respond TasksBody ∘ run_request (get_all_tasks u)) d
  | GetTasksByCat s =>
      with_user (caller r)
        (fun u => respond TasksBody ∘ run_request (get_tasks_by_cat s u)) d
  | GetTasksByTheme s =>
      with_user (caller r)
        (fun u => respond TasksBody ∘ run_request (get_tasks_by_theme s u)) d
  | GetTask s => respond_model (fun t => TaskBody (Some t)) (run_request (get_task s) d)
  | UpdateTask s f => respond TaskBody (run_request (update_task s f) d)
  | DeleteTask s => respond StatusBody (run_request (delete_task s) d)
  end.

(** The endpoints that declare [Depends(current_active_user)]. *)
Definition needs_user (e : endpoint) : bool :=
  match e with
  | GetAllCategories | GetAllTasks | GetTasksByCat _ | GetTasksByTheme _ => true
  | _ => false
  end.

(** ** Sequences of requests *)

(** Serving a sequence of requests in order. *)
Fixpoint serve_all (rs : list request) (d : db) : list response * db :=
  match rs with
  | [] => ([], d)
  | r :: rs' =>
      let '(resp, d1) := serve r d in
      let '(resps, d2) := serve_all rs' d1 in
      (resp :: resps, d2)
  end.

(** The bodies each endpoint may answer with: its return value as the
    route sends it, 401 where the route declares the user dependency,
    500 where its statement can raise. *)
Definition response_fits (e : endpoint) (r : response) : Prop :=
  match e with
  | AddNewCategory _ | UpdateCategory _ _ =>
      (exists c, r = CategoryBody c) \/ r = InternalServerError
  | GetCategory _ => (exists c, r = CategoryBody (Some c)) \/ r = InternalServerError
  | GetAllCategories => (exists l, r = CategoriesBody l) \/ r = Unauthorized
  | DeleteCategory _ => r = StatusBody "success" \/ r = InternalServerError
  | AddNewTask _ | UpdateTask _ _ => (exists t, r = TaskBody t) \/ r = InternalServerError
  | GetTask _ => (exists t, r = TaskBody (Some t)) \/ r = InternalServerError
  | GetAllTasks | GetTasksByCat _ | GetTasksByTheme _ =>
      (exists l, r = TasksBody l) \/ r = Unauthorized
  | DeleteTask _ => r = StatusBody "success"
  end.

(** ** Helper lemmas *)

Lemma respond_snd {A} (body : A -> response) (r : outcome A * db) :
  (respond body r).2 = r.2.
Proof. by destruct r as [[] ?]. Qed.

Lemma respond_model_snd {A} (body : A -> response) (r : outcome (option A) * db) :
  (respond_model body r).2 = r.2.
Proof. by destruct r as [[[]|] ?]. Qed.


Lemma serve_wf d r : wf d -> wf (serve r d).2.
Proof.
  intros Hwf. destruct r as [[u|] e]; destruct e;
    cbn [serve target caller with_user compose]; rewrite ?respond_snd, ?respond_model_snd;
    try exact Hwf;
    match goal with |- wf (run_request ?h d).2 =>
      destruct (run_request h d) as [o d'] eqn:E end; cbn [snd];
    eauto using add_new_category_wf, update_category_wf, delete_category_wf,
      add_new_task_wf, update_task_wf, delete_task_wf.
Qed.

(** A property every request preserves holds after any sequence of
    requests. *)
Lemma serve_all_preserves (P : db -> Prop) rs d :
  (forall r d', P d' -> P (serve r d').2) -> P d -> P (serve_all rs d).2.
Proof.
  intros HP. revert d. induction rs as [|r rs IH]; intros d Hd; [done|]. cbn [serve_all].
  pose proof (HP r d Hd) as H1. destruct (serve r d) as [resp d1]. cbn in H1.
  pose proof (IH d1 H1) as H2. destruct (serve_all rs d1). exact H2.
Qed.

(** No endpoint writes the theme table. *)
Lemma serve_themes d r : themes (serve r d).2 = themes d.
Proof.
  destruct r as [[u|] e]; destruct e;
    cbn [serve target caller with_user compose]; rewrite ?respond_snd, ?respond_model_snd; try reflexivity;
    unfold add_new_category, update_category, delete_category,
      add_new_task, update_task, delete_task;
    apply (run_execute_commit_frame (fun d' => themes d' = themes d)); reflexivity.
Qed.

(** The DELETE of a task, as the store commits it. *)
Lemma run_delete_task d s :
  wf d ->
  run_request (delete_task s) d =
  (Ok "success"%string, set_tasks d (filter (fun x => ~ slug_is s x) (tasks d))).
Proof.
  intros Hwf. unfold delete_task. rewrite (run_execute_commit _ (fun _ => "success"%string)).
  by rewrite decide_True by (apply delete_task_integrity, Hwf).
Qed.

(** ** Theorems *)

(** C17: the listings require a caller: without valid credentials they
    answer 401, run no handler and change nothing. *)
Theorem listings_need_caller d r :
  needs_user (target r) = true -> caller r = None ->
  serve r d = (Unauthorized, d).
Proof.
  destruct r as [c e]; cbn [caller target]. intros He ->.
  destruct e; cbn in He |- *; congruence.
Qed.

(** C18: the endpoints addressed by slug check no caller: whoever sends
    the request, another user or no user at all, gets the task of any
    owner by its slug and deletes it.  (The source marks this
    "TODO: only for user".) *)
Theorem task_by_slug_ignores_caller d t c :
  wf d -> t ∈ tasks d ->
  (serve (Request c (GetTask (Task.slug t))) d).1 = TaskBody (Some t) /\
  t ∉ tasks (serve (Request c (DeleteTask (Task.slug t))) d).2.
Proof.
  intros Hwf Ht. pose proof Hwf as ((_ & _ & (_ & Hsl & _)) & _). split.
  - cbn [serve target]. unfold get_task. rewrite run_scalars.
    erewrite (select_slug_unique (R:=Task.t)); [done|exact Hsl|exact Ht|done].
  - cbn [serve target]. rewrite run_delete_task by done. cbn.
    rewrite list_elem_of_filter. unfold slug_is. table_simpl. naive_solver.
Qed.

(** C22: every answer has the type the route promises: a category (or
    none, from create and update) from the category routes, a category
    or a 500 from the lookup with [response_model], a list of categories or tasks from
    the listings, [{'status': 'success'}] from the deletes, 401 only
    from the routes that declare [current_active_user], 500 only from
    the routes whose statement can violate a constraint; deleting a
    task never answers 500. *)
Theorem serve_response_fits d r : wf d -> response_fits (target r) (serve r d).1.
Proof.
  intros Hwf. destruct r as [[u|] e]; destruct e;
    cbn [serve target caller with_user compose response_fits];
    try (rewrite run_delete_task by done; reflexivity);
    unfold add_new_category, update_category, delete_category, add_new_task, update_task;
    rewrite ?run_execute_commit, ?(run_execute_commit _ (fun _ => "success"%string));
    try case_decide; cbn;
    try (match goal with |- context [head ?l] => destruct (head l) end; cbn);
    first [left; eexists; reflexivity | right; reflexivity | eexists; reflexivity
          | left; reflexivity].
Qed.

(** C23: a category can be deleted through the API, by some sequence
    of requests from any callers, exactly when no theme references it:
    no endpoint removes a theme, and the foreign key of [Theme.cat]
    makes every DELETE of a referenced category raise; an unreferenced
    one goes with a single [DELETE /API/category/{slug}/delete]. *)
Theorem category_deletable_iff d i :
  wf d ->
  (exists rs, forall c, c ∈ categories (serve_all rs d).2 -> Category.id c <> i) <->
  Forall (fun th => Theme.cat_id th <> i) (themes d).
Proof.
  intros Hwf. split.
  - intros [rs Hrs].
    pose proof (serve_all_preserves wf rs d (fun r d' => serve_wf d' r) Hwf)
      as ((_ & (_ & _ & Hfk) & _) & _).
    rewrite (serve_all_preserves (fun d' => themes d' = themes d) rs d
               (fun r d' E => eq_trans (serve_themes d' r) E) eq_refl) in Hfk.
    eapply Forall_impl; [exact Hfk|]. intros th Hin Heq.
    apply list_elem_of_fmap in Hin as (c & Hcat & Hc). exact (Hrs c Hc (eq_trans (eq_sym Hcat) Heq)).
  - intros Hth. pose proof Hwf as (((Hcid & _) & _) & _).
    destruct (decide (i ∈ Category.id <$> categories d)) as [Hi|Hi].
    + apply list_elem_of_fmap in Hi as (c & -> & Hc).
      exists [Request None (DeleteCategory (Category.slug c))].
      cbn [serve_all serve target]. rewrite run_delete_category by done. cbn.
      intros c' [Hne Hc']%list_elem_of_filter Heq. apply Hne.
      exact (key_inj_in Category.id (categories d) c' c Hcid Hc' Hc Heq).
    + exists []. intros c Hc <-. apply Hi, list_elem_of_fmap_2, Hc.
Qed.

(** C24: [GET /API/category/{cat_slug}] and [GET /API/task/{task_slug}]
    answer the row with the slug when there is one, and a 500 when
    there is none: [result.first()] is [None] and the route's
    [response_model] rejects it, where the specification promises null.
    Either way, and whoever asks, the store is unchanged. *)
Theorem get_by_slug_response d c s :
  wf d ->
  (forall x, x ∈ categories d -> Category.slug x = s ->
     serve (Request c (GetCategory s)) d = (CategoryBody (Some x), d)) /\
  (s ∉ Category.slug <$> categories d ->
     serve (Request c (GetCategory s)) d = (InternalServerError, d)) /\
  (forall t, t ∈ tasks d -> Task.slug t = s ->
     serve (Request c (GetTask s)) d = (TaskBody (Some t), d)) /\
  (s ∉ Task.slug <$> tasks d ->
     serve (Request c (GetTask s)) d = (InternalServerError, d)).
Proof.
  intros (((_ & Hcs & _) & _ & (_ & Hts & _)) & _).
  cbn [serve target]. unfold get_category, get_task. rewrite !run_scalars.
  split_and!.
  - intros x Hx Hs. by erewrite (select_slug_unique (R:=Category.t)).
  - intros Hs. by rewrite (select_slug_absent (R:=Category.t)).
  - intros t Ht Hs. by erewrite (select_slug_unique (R:=Task.t)).
  - intros Hs. by rewrite (select_slug_absent (R:=Task.t)).
Qed.

(** ** Witnesses *)

Lemma listings_need_caller_witness :
  serve (Request None GetAllTasks) TaskRouter.example_db =
  (Unauthorized, TaskRouter.example_db).
Proof. apply listings_need_caller; reflexivity. Defined.

(** User 2 reads and deletes the task "t1" of user 1. *)
Lemma task_by_slug_ignores_caller_witness :
  (serve (Request (Some 2%nat) (GetTask "t1")) TaskRouter.example_db).1 =
    TaskBody (Some TaskRouter.t1) /\
  TaskRouter.t1 ∉ tasks (serve (Request (Some 2%nat) (DeleteTask "t1"))
                           TaskRouter.example_db).2.
Proof.
  apply (task_by_slug_ignores_caller TaskRouter.example_db TaskRouter.t1 (Some 2%nat));
    decide_by_eval.
Defined.

Lemma serve_response_fits_witness :
  wf TaskRouter.example_db /\
  response_fits (DeleteTask "t1")
    (serve (Request None (DeleteTask "t1")) TaskRouter.example_db).1.
Proof.
  assert (Hwf : wf TaskRouter.example_db) by decide_by_eval.
  split; [exact Hwf|exact (serve_response_fits _ (Request None (DeleteTask "t1")) Hwf)].
Defined.

(** The category "home" of the example store has no theme: one request
    deletes it. *)
Lemma category_deletable_iff_witness :
  wf CategoryRouter.example_db /\
  exists rs, forall c, c ∈ categories (serve_all rs CategoryRouter.example_db).2 ->
    Category.id c <> 2%nat.
Proof.
  assert (Hwf : wf CategoryRouter.example_db) by decide_by_eval.
  split; [exact Hwf|].
  apply (proj2 (category_deletable_iff CategoryRouter.example_db 2 Hwf)). decide_by_eval.
Defined.

(** The category "work" is found; no category has the slug "errands". *)
Lemma get_by_slug_response_witness :
  wf CategoryRouter.example_db /\
  serve (Request None (GetCategory "errands")) CategoryRouter.example_db =
    (InternalServerError, CategoryRouter.example_db).
Proof.
  assert (Hwf : wf CategoryRouter.example_db) by decide_by_eval.
  split; [exact Hwf|].
  apply (get_by_slug_response CategoryRouter.example_db None "errands" Hwf).
  decide_by_eval.
Defined.

End App.
