(* ===== verification/Routing.v ===== *)
(** * Routing: from an HTTP method and path to an endpoint

    [router = APIRouter(prefix='/API/category', ...)] and
    [router = APIRouter(prefix='/API/task', ...)] with their decorators
    ([@router.get('/{cat_slug}')], ...) form the route table of the
    application.  Starlette matches a request against the routes in
    declaration order: a route whose path template and method match is
    a full match and the first one handles the request; when only the
    path of some route matches the answer is 405; otherwise, if the
    path with its trailing slash toggled matches, a redirect; else 404.
    A path parameter [{name}] with the default [str] convertor matches
    one non-empty segment ([[^/]+]).

    Paths are split into their segments on ['/'] ([split_path]); the
    route templates are split the same way ([template]).  The matching
    algorithm is Starlette's, modelled from its documented behaviour;
    the route tables are the decorators of the two routers.
    [handle_http] routes a request and serves the endpoint it reaches.

    The theorems: the request built for each endpoint reaches exactly
    that endpoint; the slug an endpoint receives is always one non-empty
    segment without ['/'] (so a row whose slug, as [add_new_category]
    and [add_new_task] accept it, is empty or contains ['/'] can never
    be addressed); an anonymous HTTP DELETE reaches [delete_task] and
    commits. *)

From S2P Require Import Prelude.
From S2P Require Import Entities.
From S2P Require Import Store.
From S2P Require Import CategoryRouter.
From S2P Require Import TaskRouter.
From S2P Require Import App.
From Stdlib Require Import Ascii.

Module Routing.
Import App CategoryRouter TaskRouter.

(** ** Paths as segments *)

Definition slash : ascii := "/"%char.

(** [path.split('/')] *)
Fixpoint split_path (s : string) : list string :=
  match s with
  | EmptyString => [""]
  | String a s' =>
      let rest := split_path s' in
      if decide (a = slash) then "" :: rest
      else match rest with
           | [] => [String a ""]
           | x :: xs => String a x :: xs
           end
  end.

(** ['/'.join(segments)] *)
Fixpoint join_path (l : list string) : string :=
  match l with
  | [] => ""
  | [x] => x
  | x :: xs => String.append x (String slash (join_path xs))
  end.

Fixpoint has_slash (s : string) : bool :=
  match s with
  | EmptyString => false
  | String a s' => bool_decide (a = slash) || has_slash s'
  end.

(** [rstrip('/')] *)
Fixpoint rstrip_slash (s : string) : string :=
  match s with
  | EmptyString => EmptyString
  | String a s' =>
      let r := rstrip_slash s' in
      if decide (a = slash /\ r = EmptyString) then EmptyString else String a r
  end.

Fixpoint ends_with_slash (s : string) : bool :=
  match s with
  | EmptyString => false
  | String a EmptyString => bool_decide (a = slash)
  | String _ s' => ends_with_slash s'
  end.

(** ** Route templates *)

Inductive segment := Lit (s : string) | Param.

(** A segment [{name}] of a route path is a path parameter. *)
Definition parse_segment (s : string) : segment :=
  match s with
  | String "{"%char _ =>
      if decide (String.get (pred (String.length s)) s = Some "}"%char)
      then Param else Lit s
  | _ => Lit s
  end.

Definition template (path : string) : list segment := parse_segment <$> split_path path.

(** The parameters a path binds, in order, when it matches a template;
    a parameter matches one non-empty segment. *)
Fixpoint match_template (t : list segment) (p : list string) : option (list string) :=
  match t, p with
  | [], [] => Some []
  | Lit a :: t', b :: p' => if decide (a = b) then match_template t' p' else None
  | Param :: t', b :: p' =>
      if decide (b = EmptyString) then None else cons b <$> match_template t' p'
  | _, _ => None
  end.

(** ** The route tables *)

Inductive method := GET | POST | PUT | DELETE.

#[global] Instance method_eq_dec : EqDecision method.
Proof. solve_decision. Defined.

(** A request body as [as_form] decodes it. *)
Inductive form :=
| CategoryCreateForm (f : CategoryCreate.t)
| CategoryUpdateForm (f : CategoryUpdate.t)
| TaskCreateForm (f : TaskCreate.t)
| TaskUpdateForm (f : TaskUpdate.t).

(** A route: its method, its full path, and the endpoint it calls with
    the path parameters and the decoded body ([None]: 422). *)
Record route := Route {
  route_method : method;
  route_path : string;
  route_endpoint : list string -> option form -> option endpoint;
}.

Definition one_param (k : string -> endpoint) (ps : list string) : option endpoint :=
  match ps with
  | [s] => Some (k s)
  | _ => None
  end.

(** [APIRouter(prefix='/API/category')] *)
Definition category_prefix : string := "/API/category".

Definition category_routes : list route := [
  Route POST (category_prefix +:+ "/create")
    (fun _ body => match body with
                   | Some (CategoryCreateForm f) => Some (AddNewCategory f)
                   | _ => None
                   end);
  Route GET (category_prefix +:+ "/") (fun _ _ => Some GetAllCategories);
  Route GET (category_prefix +:+ "/{cat_slug}") (fun ps _ => one_param GetCategory ps);
  Route PUT (category_prefix +:+ "/{cat_slug}/update")
    (fun ps body => match body with
                    | Some (CategoryUpdateForm f) => one_param (fun s => UpdateCategory s f) ps
                    | _ => None
                    end);
  Route DELETE (category_prefix +:+ "/{cat_slug}/delete") (fun ps _ => one_param DeleteCategory ps)
].

(** [APIRouter(prefix='/API/task')] *)
Definition task_prefix : string := "/API/task".

Definition task_routes : list route := [
  Route POST (task_prefix +:+ "/create")
    (fun _ body => match body with
                   | Some (TaskCreateForm f) => Some (AddNewTask f)
                   | _ => None
                   end);
  Route GET (task_prefix +:+ "/") (fun _ _ => Some GetAllTasks);
  Route GET (task_prefix +:+ "/cat/{cat_slug}") (fun ps _ => one_param GetTasksByCat ps);
  Route GET (task_prefix +:+ "/theme/{theme_slug}") (fun ps _ => one_param GetTasksByTheme ps);
  Route GET (task_prefix +:+ "/{task_slug}") (fun ps _ => one_param GetTask ps);
  Route PUT (task_prefix +:+ "/{task_slug}/update")
    (fun ps body => match body with
                    | Some (TaskUpdateForm f) => one_param (fun s => UpdateTask s f) ps
                    | _ => None
                    end);
  Route DELETE (task_prefix +:+ "/{task_slug}/delete") (fun ps _ => one_param DeleteTask ps)
].

(** The application includes both routers. *)
Definition app_routes : list route := category_routes ++ task_routes.

(** ** Dispatch *)

Inductive dispatch_result :=
| Handle (e : endpoint)
| Unprocessable               (** 422: the body does not decode *)
| MethodNotAllowed            (** 405 *)
| Redirect (path : string)    (** 307 to the path with its trailing slash toggled *)
| NotFound.                   (** 404 *)

(** The first route whose method and template both match. *)
Fixpoint first_full (rs : list route) (m : method) (segs : list string)
    : option (route * list string) :=
  match rs with
  | [] => None
  | r :: rs' =>
      if decide (route_method r = m) then
        match match_template (template (route_path r)) segs with
        | Some ps => Some (r, ps)
        | None => first_full rs' m segs
        end
      else first_full rs' m segs
  end.

Definition path_matches (rs : list route) (segs : list string) : bool :=
  existsb (fun r => if match_template (template (route_path r)) segs is Some _ then true else false) rs.

Definition dispatch (rs : list route) (m : method) (path : string) (body : option form)
    : dispatch_result :=
  let segs := split_path path in
  match first_full rs m segs with
  | Some (r, ps) =>
      match route_endpoint r ps body with
      | Some e => Handle e
      | None => Unprocessable
      end
  | None =>
      if path_matches rs segs then MethodNotAllowed
      else
        let other := if ends_with_slash path then rstrip_slash path else path +:+ "/" in
        if negb (bool_decide (path = "/")) && path_matches rs (split_path other)
        then Redirect other else NotFound
  end.

(** ** Requests as a client builds them *)

(** The path parameter an endpoint carries, if any. *)
Definition endpoint_slug (e : endpoint) : option string :=
  match e with
  | GetCategory s | UpdateCategory s _ | DeleteCategory s
  | GetTasksByCat s | GetTasksByTheme s | GetTask s
  | UpdateTask s _ | DeleteTask s => Some s
  | _ => None
  end.

(** A value a [str] path parameter can take: one non-empty segment. *)
Definition valid_slug (s : string) : bool :=
  negb (bool_decide (s = "")) && negb (has_slash s).

(** The method, path and body of the request that addresses an
    endpoint, its parameter substituted into the route's template. *)
Definition endpoint_request (e : endpoint) : method * string * option form :=
  match e with
  | AddNewCategory f =>
      (POST, join_path [""; "API"; "category"; "create"], Some (CategoryCreateForm f))
  | GetAllCategories => (GET, join_path [""; "API"; "category"; ""], None)
  | GetCategory s => (GET, join_path [""; "API"; "category"; s], None)
  | UpdateCategory s f =>
      (PUT, join_path [""; "API"; "category"; s; "update"], Some (CategoryUpdateForm f))
  | DeleteCategory s => (DELETE, join_path [""; "API"; "category"; s; "delete"], None)
  | AddNewTask f => (POST, join_path [""; "API"; "task"; "create"], Some (TaskCreateForm f))
  | GetAllTasks => (GET, join_path [""; "API"; "task"; ""], None)
  | GetTasksByCat s => (GET, join_path [""; "API"; "task"; "cat"; s], None)
  | GetTasksByTheme s => (GET, join_path [""; "API"; "task"; "theme"; s], None)
  | GetTask s => (GET, join_path [""; "API"; "task"; s], None)
  | UpdateTask s f =>
      (PUT, join_path [""; "API"; "task"; s; "update"], Some (TaskUpdateForm f))
  | DeleteTask s => (DELETE, join_path [""; "API"; "task"; s; "delete"], None)
  end.

(** ** The application over HTTP *)

Inductive http_result :=
| Served (r : response)        (** the endpoint ran (or its dependency answered 401) *)
| Status (code : Z)            (** 404, 405 or 422 before any endpoint runs *)
| Moved (path : string).       (** 307 redirect *)

(** A request as the application receives it: routed, then served by
    the endpoint it reaches with the store of the request's session. *)
Definition handle_http (m : method) (path : string) (body : option form)
    (caller : option nat) (d : db) : http_result * db :=
  match dispatch app_routes m path body with
  | Handle e => let '(r, d') := serve (Request caller e) d in (Served r, d')
  | Unprocessable => (Status 422, d)
  | MethodNotAllowed => (Status 405, d)
  | Redirect p => (Moved p, d)
  | NotFound => (Status 404, d)
  end.

(** ** Helper lemmas *)

Lemma split_path_not_nil s : split_path s <> [].
Proof.
  induction s as [|a s IH]; cbn; [done|].
  case_decide; [done|]. destruct (split_path s); done.
Qed.

Lemma join_path_String a x xs :
  join_path (String a x :: xs) = String a (join_path (x :: xs)).
Proof. by destruct xs. Qed.

Lemma split_path_no_slash s : has_slash s = false -> split_path s = [s].
Proof.
  induction s as [|a s IH]; cbn; [done|]. intros [Ha Hs]%orb_false_iff.
  rewrite decide_False by (intros ->; by rewrite bool_decide_true in Ha).
  by rewrite IH.
Qed.

(** Splitting at a slash splits each side. *)
Lemma split_path_app_slash s1 s2 :
  split_path (String.append s1 (String slash s2)) = split_path s1 ++ split_path s2.
Proof.
  induction s1 as [|a s1 IH]; [done|].
  change (String a s1 +:+ String slash s2) with (String a (s1 +:+ String slash s2)).
  cbn [split_path app]. rewrite IH.
  case_decide; [done|].
  destruct (split_path s1) as [|x xs] eqn:E; [by apply split_path_not_nil in E|].
  done.
Qed.

Lemma split_path_segments s : Forall (fun x => has_slash x = false) (split_path s).
Proof.
  induction s as [|a s IH]; cbn; [by repeat constructor|].
  case_decide; [by constructor|].
  destruct (split_path s) as [|x xs]; [by repeat constructor; cbn; rewrite bool_decide_false|].
  apply Forall_cons in IH as [Hx Hxs]. constructor; [|done].
  cbn. by rewrite bool_decide_false, Hx.
Qed.

(** Splitting a join of slash-free segments gives the segments back. *)
Lemma split_join l : l <> [] -> Forall (fun x => has_slash x = false) l ->
  split_path (join_path l) = l.
Proof.
  induction l as [|x [|y l] IH]; intros Hne Hl; [done| |].
  - apply Forall_cons in Hl as [Hx _]. by apply split_path_no_slash.
  - apply Forall_cons in Hl as [Hx Hl].
    change (join_path (x :: y :: l)) with (String.append x (String slash (join_path (y :: l)))).
    rewrite split_path_app_slash, split_path_no_slash, IH by done. done.
Qed.

Lemma valid_slug_spec s : valid_slug s = true <-> s <> "" /\ has_slash s = false.
Proof.
  unfold valid_slug. rewrite andb_true_iff, !negb_true_iff, bool_decide_eq_false.
  done.
Qed.

(** The parameters a template binds are non-empty segments of the path. *)
Lemma match_template_params t p ps :
  match_template t p = Some ps -> Forall (fun x => x <> "" /\ x ∈ p) ps.
Proof.
  revert p ps. induction t as [|[a|] t IH]; intros [|b p] ps; cbn; try done.
  - by intros [= <-].
  - case_decide; [|done]. intros Hm. eapply Forall_impl; [by apply IH|].
    intros x [? ?]. split; [done|]. by apply elem_of_cons; right.
  - case_decide; [done|]. destruct (match_template t p) as [ps'|] eqn:E; [|done].
    intros [= <-]. constructor; [split; [done|by apply elem_of_cons; left]|].
    eapply Forall_impl; [by apply IH|].
    intros x [? ?]. split; [done|]. by apply elem_of_cons; right.
Qed.

Lemma first_full_spec rs m segs r ps :
  first_full rs m segs = Some (r, ps) ->
  r ∈ rs /\ route_method r = m /\ match_template (template (route_path r)) segs = Some ps.
Proof.
  induction rs as [|r' rs IH]; cbn; [done|].
  intros Hf. case_decide; [destruct (match_template (template (route_path r')) segs) eqn:E|].
  - injection Hf as <- <-. by rewrite elem_of_cons; auto.
  - destruct (IH Hf) as (? & ? & ?). by rewrite elem_of_cons; auto.
  - destruct (IH Hf) as (? & ? & ?). by rewrite elem_of_cons; auto.
Qed.

(** The parameter an endpoint of the route table receives is one of
    the parameters its route bound. *)
Lemma app_routes_slug r ps body e x :
  r ∈ app_routes -> route_endpoint r ps body = Some e -> endpoint_slug e = Some x -> x ∈ ps.
Proof.
  unfold app_routes, category_routes, task_routes. cbn [app].
  intros Hr. repeat (apply elem_of_cons in Hr as [->|Hr]); [..|by apply not_elem_of_nil in Hr];
    cbn [route_endpoint]; unfold one_param;
    repeat (case_match; simplify_eq/=); intros; simplify_eq/=; set_solver.
Qed.

(** Proof steps that evaluate the route table on a path with symbolic
    parameters: each comparison of a literal with a parameter is split. *)
Ltac dispatch_eval :=
  simpl; repeat (case_decide; simplify_eq/=; try congruence); try reflexivity.

(** Routing a path built from segments: split it back, then evaluate
    the route table. *)
Ltac segments_ok :=
  repeat first [assumption | reflexivity | apply Forall_cons; split | apply Forall_nil].

Ltac route_segments :=
  unfold dispatch; rewrite split_join by (done || segments_ok); dispatch_eval.

(** Every endpoint reached over HTTP received a parameter that is one
    non-empty segment of the request path. *)
Lemma dispatch_handle_slug m path body e x :
  dispatch app_routes m path body = Handle e -> endpoint_slug e = Some x ->
  x <> "" /\ has_slash x = false.
Proof.
  unfold dispatch. destruct (first_full _ _ _) as [[r ps]|] eqn:E; [|repeat case_match; done].
  destruct (route_endpoint r ps body) as [e'|] eqn:Er; [|done]. intros [= <-] Hx.
  apply first_full_spec in E as (Hr & _ & Hm).
  apply match_template_params in Hm. rewrite Forall_forall in Hm.
  destruct (Hm x (app_routes_slug r ps body _ x Hr Er Hx)) as [Hne Hin].
  split; [done|]. exact (proj1 (Forall_forall _ _) (split_path_segments path) x Hin).
Qed.

(** ** Theorems *)

(** C19: the route table reaches every endpoint: the request a client
    builds for an endpoint, its parameter a non-empty segment without
    ['/'], is dispatched to that endpoint and no other.  In particular
    the declaration order sends [GET /API/task/cat/{s}] to the listing by
    category and [GET /API/task/cat] to the task whose slug is ["cat"]. *)
Theorem dispatch_endpoint_request e :
  (forall x, endpoint_slug e = Some x -> valid_slug x = true) ->
  let '(m, path, body) := endpoint_request e in
  dispatch app_routes m path body = Handle e.
Proof.
  intros Hv. destruct e; cbn [endpoint_request endpoint_slug] in *;
    try (specialize (Hv _ eq_refl); apply valid_slug_spec in Hv as [Hne Hs]);
    route_segments.
Qed.

Lemma dispatch_endpoint_request_witness :
  (forall x, endpoint_slug (GetTask "cat") = Some x -> valid_slug x = true) /\
  dispatch app_routes GET "/API/task/cat" None = Handle (GetTask "cat").
Proof.
  assert (H : forall x, endpoint_slug (GetTask "cat") = Some x -> valid_slug x = true)
    by (intros x [= <-]; reflexivity).
  split; [exact H|exact (dispatch_endpoint_request (GetTask "cat") H)].
Defined.

(** C20: the parameter of every endpoint a request reaches, a category,
    theme or task slug, is a non-empty string without ['/']: whatever
    the method, path and body, Starlette's [str] convertor binds one
    segment. *)
Theorem http_slugs_are_segments m path body e x :
  dispatch app_routes m path body = Handle e -> endpoint_slug e = Some x ->
  valid_slug x = true.
Proof.
  intros Hd Hx. apply valid_slug_spec. exact (dispatch_handle_slug m path body e x Hd Hx).
Qed.

Lemma http_slugs_are_segments_witness :
  dispatch app_routes DELETE "/API/category/work/delete" None = Handle (DeleteCategory "work") /\
  endpoint_slug (DeleteCategory "work") = Some "work" /\ valid_slug "work" = true.
Proof.
  assert (Hd : dispatch app_routes DELETE "/API/category/work/delete" None
               = Handle (DeleteCategory "work")) by reflexivity.
  split; [exact Hd|split; [reflexivity|]].
  exact (http_slugs_are_segments _ _ _ _ _ Hd eq_refl).
Defined.

(** C21: over HTTP, a [DELETE /API/task/{s}/delete] without any user
    reaches [delete_task] and commits the deletion of every task whose
    slug is [s], whoever owns it. *)
Theorem anonymous_http_delete_task d s :
  wf d -> valid_slug s = true ->
  handle_http DELETE (join_path [""; "API"; "task"; s; "delete"]) None None d =
  (Served (StatusBody "success"), set_tasks d (filter (fun x => ~ slug_is s x) (tasks d))).
Proof.
  intros Hwf [Hne Hs]%valid_slug_spec. unfold handle_http.
  replace (dispatch _ _ _ _) with (Handle (DeleteTask s)) by (symmetry; route_segments).
  cbn [serve target]. rewrite run_delete_task by done. reflexivity.
Qed.

Lemma anonymous_http_delete_task_witness :
  wf TaskRouter.example_db /\ valid_slug "t1" = true /\
  handle_http DELETE "/API/task/t1/delete" None None TaskRouter.example_db =
  (Served (StatusBody "success"),
   set_tasks TaskRouter.example_db
     (filter (fun x => ~ slug_is "t1" x) (tasks TaskRouter.example_db))).
Proof.
  assert (Hwf : wf TaskRouter.example_db) by decide_by_eval.
  split; [exact Hwf|split; [reflexivity|]].
  exact (anonymous_http_delete_task TaskRouter.example_db "t1" Hwf eq_refl).
Defined.

End Routing.
